(** * Cattle: tape, execution engine and program loader

    A shallow embedding of the Cattle Brainfuck library
    (cattle-tape.c, cattle-instruction.c, cattle-interpreter.c) and the
    properties its specification states about them.

    Conventions of the embedding:
    - a [gchar] is a signed 8-bit integer, carried as a [Z] in
      [-128, 127]; a conversion of an [int] to [gchar] is [to_gchar];
    - a [gint] is carried as a [Z]; [int] arithmetic wraps at 32 bits
      ([to_gint]);
    - a [GList] node is named by an integer that never changes once the
      node is allocated: the first chunk of a tape is node 0, a prepended
      chunk takes the name below the head's and an appended chunk the name
      above the last one's.  Equality of node names is equality of the C
      pointers, which is what a bookmark stores;
    - instructions and interpreters are taken live: the [disposed] guard
      of every entry point is kept for the tape, whose entry points the
      properties below are about, and [run_real] is only entered on a
      live interpreter. *)

From stdpp Require Import base numbers list strings.
From Stdlib Require Import ZArith Lia Bool Ascii.

Local Open Scope Z_scope.

(** ** Machine integers *)

Abbreviation gchar := Z (only parsing).
Abbreviation gint := Z (only parsing).
Abbreviation gunichar := Z (only parsing).
Abbreviation gboolean := bool (only parsing).

(** Conversion to a signed 8-bit [gchar]. *)
Definition to_gchar (z : Z) : gchar := (z + 128) mod 256 - 128.

(** Result of 32-bit [int] arithmetic. *)
Definition to_gint (z : Z) : gint := (z + 2147483648) mod 4294967296 - 2147483648.

Definition G_MAXINT : Z := 2147483647.

(** [(gchar) EOF], with [EOF] the [-1] of stdio.h. *)
Definition EOF_char : gchar := to_gchar (-1).

(** ** The tape (cattle-tape.c) *)

Module Tape.

Definition CHUNK_SIZE : Z := 128.

Abbreviation chunk := (list gchar) (only parsing).

(** [g_slice_alloc0 (CHUNK_SIZE * sizeof (gchar))] *)
Definition g_slice_alloc0 : chunk := replicate (Z.to_nat CHUNK_SIZE) 0.

Record CattleTapeBookmark := mkBookmark {
  bm_chunk : Z;
  bm_offset : Z
}.

(** [struct _CattleTapePrivate].  [head] names the first node of the
    list and [nodes] holds the chunks in list order, so the node named
    [n] is at position [n - head]. *)
Record CattleTape := mkTape {
  disposed : bool;
  current : Z;
  head : Z;
  nodes : list chunk;
  offset : Z;
  lower_limit : Z;
  upper_limit : Z;
  bookmarks : list CattleTapeBookmark
}.

Definition last_node (self : CattleTape) : Z :=
  head self + Z.of_nat (length (nodes self)) - 1.

Definition g_list_previous (self : CattleTape) (node : Z) : option Z :=
  if node =? head self then None else Some (node - 1).

Definition g_list_next (self : CattleTape) (node : Z) : option Z :=
  if node =? last_node self then None else Some (node + 1).

(** The chunk a node holds ([node->data]). *)
Definition node_data (self : CattleTape) (node : Z) : option chunk :=
  if head self <=? node then nodes self !! Z.to_nat (node - head self) else None.

Definition cattle_tape_init : CattleTape :=
  {| disposed := false;
     current := 0;
     head := 0;
     nodes := [g_slice_alloc0];
     offset := 0;
     lower_limit := 0;
     upper_limit := 0;
     bookmarks := [] |}.

Definition cattle_tape_new : CattleTape := cattle_tape_init.

(** [chunk[offset] = value].  A write outside the allocated chunk is
    undefined in C; the model leaves the tape as it is there, and
    [tape_ok] below excludes the case. *)
Definition cattle_tape_set_current_value (self : CattleTape) (value : gchar)
  : CattleTape :=
  if disposed self then self
  else if (head self <=? current self) && (0 <=? offset self) then
    {| disposed := disposed self;
       current := current self;
       head := head self;
       nodes := alter (fun c : chunk => <[Z.to_nat (offset self) := value]> c)
                      (Z.to_nat (current self - head self)) (nodes self);
       offset := offset self;
       lower_limit := lower_limit self;
       upper_limit := upper_limit self;
       bookmarks := bookmarks self |}
  else self.

(** [value = chunk[offset]]; [(gchar) 0] on a disposed tape. *)
Definition cattle_tape_get_current_value (self : CattleTape) : gchar :=
  if disposed self then 0
  else match node_data self (current self) with
       | Some c =>
           if 0 <=? offset self then default 0 (c !! Z.to_nat (offset self))
           else 0
       | None => 0
       end.

(** [g_list_prepend (head, chunk)] with its effect on the limits. *)
Definition prepend_chunk (self : CattleTape) : CattleTape :=
  {| disposed := disposed self;
     current := current self;
     head := head self - 1;
     nodes := g_slice_alloc0 :: nodes self;
     offset := offset self;
     lower_limit := CHUNK_SIZE - 1;
     upper_limit := upper_limit self;
     bookmarks := bookmarks self |}.

(** [g_list_append (head, chunk)] with its effect on the limits. *)
Definition append_chunk (self : CattleTape) : CattleTape :=
  {| disposed := disposed self;
     current := current self;
     head := head self;
     nodes := nodes self ++ [g_slice_alloc0];
     offset := offset self;
     lower_limit := lower_limit self;
     upper_limit := 0;
     bookmarks := bookmarks self |}.

Definition set_cursor (self : CattleTape) (node off : Z) : CattleTape :=
  {| disposed := disposed self;
     current := node;
     head := head self;
     nodes := nodes self;
     offset := off;
     lower_limit := lower_limit self;
     upper_limit := upper_limit self;
     bookmarks := bookmarks self |}.

Definition set_lower_limit (self : CattleTape) (l : Z) : CattleTape :=
  {| disposed := disposed self;
     current := current self;
     head := head self;
     nodes := nodes self;
     offset := offset self;
     lower_limit := l;
     upper_limit := upper_limit self;
     bookmarks := bookmarks self |}.

Definition set_upper_limit (self : CattleTape) (u : Z) : CattleTape :=
  {| disposed := disposed self;
     current := current self;
     head := head self;
     nodes := nodes self;
     offset := offset self;
     lower_limit := lower_limit self;
     upper_limit := u;
     bookmarks := bookmarks self |}.

Definition set_bookmarks (self : CattleTape) (bs : list CattleTapeBookmark)
  : CattleTape :=
  {| disposed := disposed self;
     current := current self;
     head := head self;
     nodes := nodes self;
     offset := offset self;
     lower_limit := lower_limit self;
     upper_limit := upper_limit self;
     bookmarks := bs |}.

Definition cattle_tape_move_left (self : CattleTape) : CattleTape :=
  if disposed self then self
  else if offset self =? 0 then
    (* at the beginning of the current chunk *)
    let self1 :=
      match g_list_previous self (current self) with
      | None => prepend_chunk self
      | Some _ => self
      end in
    match g_list_previous self1 (current self1) with
    | Some p => set_cursor self1 p (CHUNK_SIZE - 1)
    | None => self1 (* not reached: the current node has a predecessor *)
    end
  else
    (* somewhere in the chunk *)
    let self1 := set_cursor self (current self) (offset self - 1) in
    match g_list_previous self1 (current self1) with
    | None =>
        if offset self1 <? lower_limit self1
        then set_lower_limit self1 (offset self1)
        else self1
    | Some _ => self1
    end.

Definition cattle_tape_move_right (self : CattleTape) : CattleTape :=
  if disposed self then self
  else if offset self =? CHUNK_SIZE - 1 then
    (* at the end of the current chunk *)
    let self1 :=
      match g_list_next self (current self) with
      | None => append_chunk self
      | Some _ => self
      end in
    match g_list_next self1 (current self1) with
    | Some n => set_cursor self1 n 0
    | None => self1 (* not reached: the current node has a successor *)
    end
  else
    (* somewhere in the chunk *)
    let self1 := set_cursor self (current self) (offset self + 1) in
    match g_list_next self1 (current self1) with
    | None =>
        if upper_limit self1 <? offset self1
        then set_upper_limit self1 (offset self1)
        else self1
    | Some _ => self1
    end.

Definition cattle_tape_is_at_beginning (self : CattleTape) : gboolean :=
  if disposed self then false
  else match g_list_previous self (current self) with
       | None => offset self =? lower_limit self
       | Some _ => false
       end.

Definition cattle_tape_is_at_end (self : CattleTape) : gboolean :=
  if disposed self then false
  else match g_list_next self (current self) with
       | None => offset self =? upper_limit self
       | Some _ => false
       end.

Definition cattle_tape_push_bookmark (self : CattleTape) : CattleTape :=
  if disposed self then self
  else set_bookmarks self
         ({| bm_chunk := current self; bm_offset := offset self |}
            :: bookmarks self).

(** The bookmark taken is the head of the stack, and [g_slist_remove]
    drops the first link holding that pointer, which is the head. *)
Definition cattle_tape_pop_bookmark (self : CattleTape)
  : gboolean * CattleTape :=
  if disposed self then (false, self)
  else match bookmarks self with
       | [] => (false, self)
       | bookmark :: rest =>
           (true,
            set_cursor (set_bookmarks self rest)
                       (bm_chunk bookmark) (bm_offset bookmark))
       end.

(** Single-step moves and sequences of them. *)
Inductive move := MoveLeft | MoveRight.

Definition apply_move (m : move) (self : CattleTape) : CattleTape :=
  match m with
  | MoveLeft => cattle_tape_move_left self
  | MoveRight => cattle_tape_move_right self
  end.

Definition apply_moves (ms : list move) (self : CattleTape) : CattleTape :=
  fold_left (fun t m => apply_move m t) ms self.

(** The cursor is in the first (last) chunk of the list. *)
Definition in_first_chunk (self : CattleTape) : Prop :=
  g_list_previous self (current self) = None.

Definition in_last_chunk (self : CattleTape) : Prop :=
  g_list_next self (current self) = None.

(** Well-formed tapes: the cursor points inside an allocated chunk. *)
Record tape_ok (self : CattleTape) : Prop := mkTapeOk {
  ok_live : disposed self = false;
  ok_current : head self <= current self <= last_node self;
  ok_offset : 0 <= offset self < CHUNK_SIZE;
  ok_chunks : Forall (fun c : chunk => length c = Z.to_nat CHUNK_SIZE) (nodes self)
}.

End Tape.

(** ** Instructions (cattle-instruction.c) *)

Inductive CattleInstructionValue :=
| CATTLE_INSTRUCTION_NONE
| CATTLE_INSTRUCTION_MOVE_LEFT
| CATTLE_INSTRUCTION_MOVE_RIGHT
| CATTLE_INSTRUCTION_INCREASE
| CATTLE_INSTRUCTION_DECREASE
| CATTLE_INSTRUCTION_LOOP_BEGIN
| CATTLE_INSTRUCTION_LOOP_END
| CATTLE_INSTRUCTION_READ
| CATTLE_INSTRUCTION_PRINT
| CATTLE_INSTRUCTION_DUMP_TAPE.

(** [struct _CattleInstructionPrivate]: [next] and [loop] own their
    subtrees, [None] is the [NULL] pointer. *)
#[local] Unset Elimination Schemes.
Inductive CattleInstruction := mkInstruction {
  value : CattleInstructionValue;
  quantity : gint;
  next : option CattleInstruction;
  loop : option CattleInstruction
}.
#[local] Set Elimination Schemes.

(** [cattle_instruction_init] *)
Definition cattle_instruction_new : CattleInstruction :=
  {| value := CATTLE_INSTRUCTION_NONE; quantity := 1;
     next := None; loop := None |}.

(** [cattle_instruction_set_quantity]: the guard
    [(quantity > 0) && (quantity < G_MAXINT)] turns any other value down. *)
Definition cattle_instruction_set_quantity (self : CattleInstruction) (q : gint)
  : CattleInstruction :=
  if (0 <? q) && (q <? G_MAXINT)
  then {| value := value self; quantity := q;
          next := next self; loop := loop self |}
  else self.

(** ** GLib's UTF-8 primitives, as the interpreter uses them

    A C string is a [string] of bytes; its terminating NUL is the end of
    the [string]. *)

Definition byte_val (a : ascii) : Z := Z.of_N (Ascii.N_of_ascii a).

Fixpoint utf8_get (len : nat) (result : Z) (p : string) : gunichar :=
  match len with
  | O => result
  | S len' =>
      match p with
      | String b rest =>
          if Z.land (byte_val b) 192 =? 128
          then utf8_get len' (Z.lor (Z.shiftl result 6) (Z.land (byte_val b) 63)) rest
          else 4294967295
      | EmptyString => 4294967295
      end
  end.

(** [g_utf8_get_char (p)]: the character at [p], [0] at the terminator,
    [(gunichar) -1] on a malformed sequence. *)
Definition g_utf8_get_char (p : string) : gunichar :=
  match p with
  | EmptyString => 0
  | String a rest =>
      let c := byte_val a in
      if c <? 128 then c
      else if Z.land c 224 =? 192 then utf8_get 1 (Z.land c 31) rest
      else if Z.land c 240 =? 224 then utf8_get 2 (Z.land c 15) rest
      else if Z.land c 248 =? 240 then utf8_get 3 (Z.land c 7) rest
      else if Z.land c 252 =? 248 then utf8_get 4 (Z.land c 3) rest
      else if Z.land c 254 =? 252 then utf8_get 5 (Z.land c 1) rest
      else 4294967295
  end.

(** [g_utf8_skip[c]] *)
Definition g_utf8_skip (c : Z) : nat :=
  if c <? 192 then 1
  else if c <? 224 then 2
  else if c <? 240 then 3
  else if c <? 248 then 4
  else if c <? 252 then 5
  else if c <? 254 then 6
  else 1.

Fixpoint string_drop (n : nat) (p : string) : string :=
  match n, p with
  | S n', String _ rest => string_drop n' rest
  | _, _ => p
  end.

(** [g_utf8_next_char (p)] *)
Definition g_utf8_next_char (p : string) : string :=
  match p with
  | EmptyString => EmptyString
  | String a _ => string_drop (g_utf8_skip (byte_val a)) p
  end.

(** ** Configuration and program, as the interpreter reads them

    cattle-configuration.c and cattle-program.c only enter the interpreter
    through their getters. *)

Inductive CattleOnEOFAction :=
| CATTLE_ON_EOF_STORE_ZERO
| CATTLE_ON_EOF_STORE_EOF
| CATTLE_ON_EOF_DO_NOTHING.

Record CattleConfiguration := mkConfiguration {
  on_eof_action : CattleOnEOFAction;
  debug_is_enabled : gboolean
}.

Record CattleProgram := mkProgram {
  instructions : CattleInstruction;
  input : option string
}.

(** Outcome of running C code in the model: a returned value, a crash
    (a [NULL] pointer handed to [g_utf8_get_char]), or not enough fuel to
    reach the return. *)
Inductive result (A : Type) :=
| Returned (a : A)
| Crashed
| OutOfFuel.
Arguments Returned {A} a.
Arguments Crashed {A}.
Arguments OutOfFuel {A}.

(** ** The interpreter (cattle-interpreter.c) *)

Module Interp.

Import Tape.

(** One signal emission, with the value the handler returned. *)
Inductive event :=
| InputRequest (success : gboolean)
| OutputRequest (output : gchar) (success : gboolean)
| DebugRequest (success : gboolean).

(** [struct _CattleInterpreterPrivate]; [input_line] is its field
    [input], the line the input handler returned last.  [world] is
    whatever the signal handlers act on; [events] logs the emissions in
    order, the oldest first. *)
Record CattleInterpreter (W : Type) := mkInterpreter {
  configuration : CattleConfiguration;
  program : CattleProgram;
  tape : CattleTape;
  had_input : gboolean;
  input_line : option string;
  input_cursor : option string;
  end_of_input_reached : gboolean;
  world : W;
  events : list event
}.
Arguments mkInterpreter {W}.
Arguments configuration {W}.
Arguments program {W}.
Arguments tape {W}.
Arguments had_input {W}.
Arguments input_line {W}.
Arguments input_cursor {W}.
Arguments end_of_input_reached {W}.
Arguments world {W}.
Arguments events {W}.

Section Engine.

Context {W : Type}.

(** The handlers connected to the three signals.  Each returns the
    [gboolean] the emission stores in [success]; the input handler also
    returns what it left in [self->priv->input], the debug handler the
    tape as it left it. *)
Variable input_handler : W -> gboolean * option string * W.
Variable output_handler : gchar -> W -> gboolean * W.
Variable debug_handler : CattleTape -> W -> gboolean * CattleTape * W.

(** The content of [run_real]'s local [temp] before anything is assigned
    to it. *)
Variable uninitialised : gchar.

Local Abbreviation Interpreter := (CattleInterpreter W).

Definition set_tape (self : Interpreter) (t : CattleTape) : Interpreter :=
  mkInterpreter (configuration self) (program self) t (had_input self)
    (input_line self) (input_cursor self) (end_of_input_reached self)
    (world self) (events self).

Definition set_input_cursor (self : Interpreter) (c : option string) : Interpreter :=
  mkInterpreter (configuration self) (program self) (tape self) (had_input self)
    (input_line self) c (end_of_input_reached self)
    (world self) (events self).

Definition set_end_of_input_reached (self : Interpreter) (b : gboolean) : Interpreter :=
  mkInterpreter (configuration self) (program self) (tape self) (had_input self)
    (input_line self) (input_cursor self) b
    (world self) (events self).

Definition set_had_input (self : Interpreter) (b : gboolean) : Interpreter :=
  mkInterpreter (configuration self) (program self) (tape self) b
    (input_line self) (input_cursor self) (end_of_input_reached self)
    (world self) (events self).

(** [g_signal_emit (self, signals[INPUT_REQUEST], 0, &input, error, &success)] *)
Definition emit_input_request (self : Interpreter) : gboolean * Interpreter :=
  let '(success, line, w) := input_handler (world self) in
  (success,
   mkInterpreter (configuration self) (program self) (tape self) (had_input self)
     line (input_cursor self) (end_of_input_reached self)
     w (events self ++ [InputRequest success])).

(** [g_signal_emit (self, signals[OUTPUT_REQUEST], 0, output, error, &success)] *)
Definition emit_output_request (self : Interpreter) (output : gchar)
  : gboolean * Interpreter :=
  let '(success, w) := output_handler output (world self) in
  (success,
   mkInterpreter (configuration self) (program self) (tape self) (had_input self)
     (input_line self) (input_cursor self) (end_of_input_reached self)
     w (events self ++ [OutputRequest output success])).

(** [g_signal_emit (self, signals[DEBUG_REQUEST], 0, error, &success)] *)
Definition emit_debug_request (self : Interpreter) : gboolean * Interpreter :=
  let '(success, t, w) := debug_handler (tape self) (world self) in
  (success,
   mkInterpreter (configuration self) (program self) t (had_input self)
     (input_line self) (input_cursor self) (end_of_input_reached self)
     w (events self ++ [DebugRequest success])).

(** [input_cursor == NULL || g_utf8_get_char (input_cursor) == 0] *)
Definition cursor_exhausted (c : option string) : bool :=
  match c with
  | None => true
  | Some p => g_utf8_get_char p =? 0
  end.

(** STEP 1 of a read: fetch more input if needed.  The [bool] beside
    [success] tells whether the [for] loop is left by [break]. *)
Definition read_fetch (success : gboolean) (self : Interpreter)
  : bool * gboolean * Interpreter :=
  if negb (had_input self) && negb (end_of_input_reached self) then
    if cursor_exhausted (input_cursor self) then
      let '(success1, self1) := emit_input_request self in
      if negb success1 then (true, success1, self1)
      else
        let self2 :=
          match input_line self1 with
          | None => set_end_of_input_reached self1 true
          | Some _ => self1
          end in
        (false, success1, set_input_cursor self2 (input_line self2))
    else (false, success, self)
  else (false, success, self).

(** STEP 2 of a read: get the char and normalize it.  [None] when the
    cursor dereferenced is [NULL]. *)
Definition read_char (self : Interpreter) : option (gchar * Interpreter) :=
  if end_of_input_reached self then Some (EOF_char, self)
  else
    match input_cursor self with
    | None => None
    | Some p =>
        let temp := to_gchar (g_utf8_get_char p) in
        if temp =? 0 then
          match input (program self) with
          | None => Some (EOF_char, set_end_of_input_reached self true)
          | Some _ => Some (temp, self)
          end
        else Some (temp, set_input_cursor self (Some (g_utf8_next_char p)))
    end.

(** The [for] loop of the read case: it holds steps 1 and 2 only. *)
Fixpoint read_loop (n : nat) (success : gboolean) (temp : gchar)
  (self : Interpreter) : option (gboolean * gchar * Interpreter) :=
  match n with
  | O => Some (success, temp, self)
  | S n' =>
      let '(brk, success1, self1) := read_fetch success self in
      if brk then Some (success1, temp, self1)
      else
        match read_char self1 with
        | None => None
        | Some (temp1, self2) => read_loop n' success1 temp1 self2
        end
  end.

(** STEP 3 of a read: perform the actual operation.  It follows the
    [for] loop. *)
Definition read_store (temp : gchar) (self : Interpreter) : Interpreter :=
  if temp =? EOF_char then
    match on_eof_action (configuration self) with
    | CATTLE_ON_EOF_STORE_ZERO =>
        set_tape self (cattle_tape_set_current_value (tape self) 0)
    | CATTLE_ON_EOF_STORE_EOF =>
        set_tape self (cattle_tape_set_current_value (tape self) temp)
    | CATTLE_ON_EOF_DO_NOTHING => self
    end
  else set_tape self (cattle_tape_set_current_value (tape self) temp).

(** The read case as the specification words it: the whole operation,
    the store included, once per round.  It is here to be compared with
    [read_loop] followed by [read_store]. *)
Fixpoint read_as_specified (n : nat) (success : gboolean) (temp : gchar)
  (self : Interpreter) : option (gboolean * gchar * Interpreter) :=
  match n with
  | O => Some (success, temp, self)
  | S n' =>
      let '(brk, success1, self1) := read_fetch success self in
      if brk then Some (success1, temp, self1)
      else
        match read_char self1 with
        | None => None
        | Some (temp1, self2) =>
            read_as_specified n' success1 temp1 (read_store temp1 self2)
        end
  end.

(** The [for] loop of the print case. *)
Fixpoint print_loop (n : nat) (success : gboolean) (self : Interpreter)
  : gboolean * Interpreter :=
  match n with
  | O => (success, self)
  | S n' =>
      let '(success1, self1) :=
        emit_output_request self (cattle_tape_get_current_value (tape self)) in
      if negb success1 then (success1, self1)
      else print_loop n' success1 self1
  end.

(** The [for] loop of the dump-tape case. *)
Fixpoint debug_loop (n : nat) (success : gboolean) (self : Interpreter)
  : gboolean * Interpreter :=
  match n with
  | O => (success, self)
  | S n' =>
      let '(success1, self1) := emit_debug_request self in
      if negb success1 then (success1, self1)
      else debug_loop n' success1 self1
  end.

(** [for (i = 0; i < quantity; i++)]: the number of rounds. *)
Definition rounds (q : gint) : nat := Z.to_nat q.

(** [while (cattle_tape_get_current_value (tape) != 0)
       success = run_real (self, loop, error);] *)
Fixpoint while_loop (fuel : nat)
  (run_loop : Interpreter -> result (gboolean * Interpreter))
  (success : gboolean) (self : Interpreter)
  : result (gboolean * Interpreter) :=
  if cattle_tape_get_current_value (tape self) =? 0
  then Returned (success, self)
  else
    match fuel with
    | O => OutOfFuel
    | S fuel' =>
        match run_loop self with
        | Returned (success1, self1) => while_loop fuel' run_loop success1 self1
        | Crashed => Crashed
        | OutOfFuel => OutOfFuel
        end
    end.

(** The [do ... while] of [run_real], entered at [instruction] with the
    locals [success] and [temp]. *)
Fixpoint do_while (fuel : nat) (instruction : CattleInstruction)
  (success : gboolean) (temp : gchar) (self : Interpreter)
  : result (gboolean * Interpreter) :=
  match fuel with
  | O => OutOfFuel
  | S fuel' =>
      (* Go to the next instruction *)
      let go_next (success : gboolean) (temp : gchar) (self : Interpreter) :=
        match next instruction with
        | Some instruction' =>
            if success then do_while fuel' instruction' success temp self
            else Returned (success, self)
        | None => Returned (success, self)
        end in
      match value instruction with
      | CATTLE_INSTRUCTION_LOOP_BEGIN =>
          match loop instruction with
          | Some body =>
              match while_loop fuel'
                      (fun s => do_while fuel' body true uninitialised s)
                      success self with
              | Returned (success1, self1) => go_next success1 temp self1
              | Crashed => Crashed
              | OutOfFuel => OutOfFuel
              end
          | None => go_next success temp self
          end
      | CATTLE_INSTRUCTION_LOOP_END => Returned (success, self)
      | CATTLE_INSTRUCTION_MOVE_LEFT =>
          go_next success temp
            (set_tape self
               (Nat.iter (rounds (quantity instruction))
                         cattle_tape_move_left (tape self)))
      | CATTLE_INSTRUCTION_MOVE_RIGHT =>
          go_next success temp
            (set_tape self
               (Nat.iter (rounds (quantity instruction))
                         cattle_tape_move_right (tape self)))
      | CATTLE_INSTRUCTION_INCREASE =>
          go_next success temp
            (set_tape self
               (cattle_tape_set_current_value (tape self)
                  (to_gchar (to_gint (cattle_tape_get_current_value (tape self)
                                      + quantity instruction)))))
      | CATTLE_INSTRUCTION_DECREASE =>
          go_next success temp
            (set_tape self
               (cattle_tape_set_current_value (tape self)
                  (to_gchar (to_gint (cattle_tape_get_current_value (tape self)
                                      - quantity instruction)))))
      | CATTLE_INSTRUCTION_READ =>
          match read_loop (rounds (quantity instruction)) success temp self with
          | Some (success1, temp1, self1) =>
              go_next success1 temp1 (read_store temp1 self1)
          | None => Crashed
          end
      | CATTLE_INSTRUCTION_PRINT =>
          let '(success1, self1) :=
            print_loop (rounds (quantity instruction)) success self in
          go_next success1 temp self1
      | CATTLE_INSTRUCTION_DUMP_TAPE =>
          if debug_is_enabled (configuration self) then
            let '(success1, self1) :=
              debug_loop (rounds (quantity instruction)) success self in
            go_next success1 temp self1
          else go_next success temp self
      | CATTLE_INSTRUCTION_NONE => go_next success temp self
      end
  end.

(** [run_real (self, instruction, error)]: a fresh frame, with
    [success = TRUE] and [temp] not yet assigned. *)
Definition run_real (fuel : nat) (self : Interpreter)
  (instruction : CattleInstruction) : result (gboolean * Interpreter) :=
  do_while fuel instruction true uninitialised self.

(** [cattle_interpreter_run] *)
Definition cattle_interpreter_run (fuel : nat) (self : Interpreter)
  : result (gboolean * Interpreter) :=
  let self1 := set_input_cursor self (input (program self)) in
  let self2 :=
    match input_cursor self1 with
    | Some _ => set_had_input self1 true
    | None => self1
    end in
  run_real fuel self2 (instructions (program self2)).

(** What follows the [switch]: go to the next instruction, as long as
    there is one and [success] holds. *)
Definition go_next (fuel : nat) (nxt : option CattleInstruction)
  (success : gboolean) (temp : gchar) (self : Interpreter)
  : result (gboolean * Interpreter) :=
  match nxt with
  | Some instruction' =>
      if success then do_while fuel instruction' success temp self
      else Returned (success, self)
  | None => Returned (success, self)
  end.

(** The walk started at [instruction] with the locals [success] and
    [temp] returns [r]. *)
Definition returns (instruction : CattleInstruction) (success : gboolean)
  (temp : gchar) (self : Interpreter) (r : gboolean * Interpreter) : Prop :=
  exists fuel, do_while fuel instruction success temp self = Returned r.

End Engine.

(** [cattle_interpreter_init], over a fresh tape, for a given
    configuration and program. *)
Definition cattle_interpreter_new {W : Type} (c : CattleConfiguration)
  (p : CattleProgram) (w : W) : CattleInterpreter W :=
  mkInterpreter c p cattle_tape_new false None None false w [].

End Interp.

(** ** The program loader

    cattle-program.c is not part of the sources at hand: only its header
    (the error codes, the signatures) and its tests are. *)

Module Loader.

(** [CattleProgramError] (cattle-program.h) *)
Inductive CattleProgramError :=
| CATTLE_PROGRAM_ERROR_BAD_UTF8
| CATTLE_PROGRAM_ERROR_UNMATCHED_BRACKET
| CATTLE_PROGRAM_ERROR_UNBALANCED_BRACKETS.

Definition utf8_continuation (c : Z) : bool := (128 <=? c) && (c <=? 191).

(** Well-formed UTF-8 (RFC 3629): no overlong form, no surrogate, nothing
    above U+10FFFF. *)
Fixpoint utf8_valid (s : string) : bool :=
  match s with
  | EmptyString => true
  | String a0 s1 =>
      let c0 := byte_val a0 in
      if c0 <? 128 then utf8_valid s1
      else
        match s1 with
        | EmptyString => false
        | String a1 s2 =>
            let c1 := byte_val a1 in
            if (194 <=? c0) && (c0 <=? 223)
            then utf8_continuation c1 && utf8_valid s2
            else
              match s2 with
              | EmptyString => false
              | String a2 s3 =>
                  let c2 := byte_val a2 in
                  if (224 <=? c0) && (c0 <=? 239) then
                    ((if c0 =? 224 then 160 else 128) <=? c1)
                    && (c1 <=? (if c0 =? 237 then 159 else 191))
                    && utf8_continuation c2 && utf8_valid s3
                  else
                    match s3 with
                    | EmptyString => false
                    | String a3 s4 =>
                        let c3 := byte_val a3 in
                        if (240 <=? c0) && (c0 <=? 244) then
                          ((if c0 =? 240 then 144 else 128) <=? c1)
                          && (c1 <=? (if c0 =? 244 then 143 else 191))
                          && utf8_continuation c2 && utf8_continuation c3
                          && utf8_valid s4
                        else false
                    end
              end
        end
  end.

(** The operator a character stands for; [None] for a comment. *)
Definition operator (c : ascii) : option CattleInstructionValue :=
  if Ascii.eqb c "+" then Some CATTLE_INSTRUCTION_INCREASE
  else if Ascii.eqb c "-" then Some CATTLE_INSTRUCTION_DECREASE
  else if Ascii.eqb c "<" then Some CATTLE_INSTRUCTION_MOVE_LEFT
  else if Ascii.eqb c ">" then Some CATTLE_INSTRUCTION_MOVE_RIGHT
  else if Ascii.eqb c "." then Some CATTLE_INSTRUCTION_PRINT
  else if Ascii.eqb c "," then Some CATTLE_INSTRUCTION_READ
  else if Ascii.eqb c "[" then Some CATTLE_INSTRUCTION_LOOP_BEGIN
  else if Ascii.eqb c "]" then Some CATTLE_INSTRUCTION_LOOP_END
  else if Ascii.eqb c "#" then Some CATTLE_INSTRUCTION_DUMP_TAPE
  else None.

(** A node under construction: its value, its quantity and, for a
    LoopBegin, the chain of its body. *)
#[local] Unset Elimination Schemes.
Inductive item := Item (v : CattleInstructionValue) (q : gint) (body : list item).
#[local] Set Elimination Schemes.

(** The chain being built (latest node first), and the chains suspended
    by the loops still open (innermost first). *)
Record builder := mkBuilder {
  chain : list item;
  open_loops : list (list item)
}.

Definition bump (c : list item) : list item :=
  match c with
  | Item v q body :: rest => Item v (q + 1) body :: rest
  | [] => []
  end.

(** Modelled from the spec: the scan of cattle-program.c's loader (4.1:
    Scan, Compression, Nesting, Validation).  [prev] is the character
    read just before: a non-bracket operator that repeats it joins the
    node that character made.  The scan returns the error met, or the
    top-level chain and the literal input found after the first ['!']. *)
Fixpoint scan (s : string) (prev : option ascii) (b : builder)
  : CattleProgramError + (list item * option string) :=
  match s with
  | EmptyString =>
      match open_loops b with
      | [] => inr (rev (chain b), None)
      | _ :: _ => inl CATTLE_PROGRAM_ERROR_UNBALANCED_BRACKETS
      end
  | String c rest =>
      if Ascii.eqb c "!" then
        match open_loops b with
        | [] => inr (rev (chain b), Some rest)
        | _ :: _ => inl CATTLE_PROGRAM_ERROR_UNBALANCED_BRACKETS
        end
      else
        match operator c with
        | None => scan rest (Some c) b
        | Some CATTLE_INSTRUCTION_LOOP_BEGIN =>
            scan rest (Some c)
              {| chain := []; open_loops := chain b :: open_loops b |}
        | Some CATTLE_INSTRUCTION_LOOP_END =>
            match open_loops b with
            | [] => inl CATTLE_PROGRAM_ERROR_UNMATCHED_BRACKET
            | parent :: outer =>
                let body := rev (Item CATTLE_INSTRUCTION_LOOP_END 1 [] :: chain b) in
                scan rest (Some c)
                  {| chain := Item CATTLE_INSTRUCTION_LOOP_BEGIN 1 body :: parent;
                     open_loops := outer |}
            end
        | Some v =>
            let same :=
              match prev with
              | Some p => Ascii.eqb p c
              | None => false
              end in
            scan rest (Some c)
              {| chain := if same then bump (chain b)
                          else Item v 1 [] :: chain b;
                 open_loops := open_loops b |}
        end
  end.

(** The instruction an item becomes, given what follows it. *)
Fixpoint link (it : item) (nxt : option CattleInstruction) : CattleInstruction :=
  match it with
  | Item v q body =>
      {| value := v; quantity := q; next := nxt;
         loop := (fix link_chain (c : list item) : option CattleInstruction :=
                    match c with
                    | [] => None
                    | it' :: c' => Some (link it' (link_chain c'))
                    end) body |}
  end.

Definition link_chain (c : list item) : option CattleInstruction :=
  foldr (fun it acc => Some (link it acc)) None c.

(** The program a failed load and a load of the empty text leave: a
    single instruction doing nothing, no input. *)
Definition empty_program : CattleProgram :=
  {| instructions := cattle_instruction_new; input := None |}.

(** Modelled from the spec: [cattle_program_load] of cattle-program.c
    (4.1 and 6).  The result is the error, if any, and the program as the
    load leaves it. *)
Definition cattle_program_load (self : CattleProgram) (source : string)
  : option CattleProgramError * CattleProgram :=
  if negb (utf8_valid source) then (Some CATTLE_PROGRAM_ERROR_BAD_UTF8, empty_program)
  else
    match scan source None {| chain := []; open_loops := [] |} with
    | inl e => (Some e, empty_program)
    | inr (c, literal) =>
        (None,
         {| instructions := default cattle_instruction_new (link_chain c);
            input := literal |})
    end.

End Loader.

(** ** Sample handlers, programs and states *)

Module Samples.

Import Tape Interp.

(** The world of the sample handlers counts the emissions made so far. *)

(** Input is at its end from the first request on. *)
Definition input_at_end (w : nat) : gboolean * option string * nat :=
  (true, None, S w).

(** The line ["a"] at the first request, the end of input afterwards. *)
Definition input_a_then_end (w : nat) : gboolean * option string * nat :=
  (true, match w with O => Some "a"%string | S _ => None end, S w).

Definition output_ok (c : gchar) (w : nat) : gboolean * nat := (true, S w).

(** The first output request fails, the later ones succeed. *)
Definition output_fails_once (c : gchar) (w : nat) : gboolean * nat :=
  (match w with O => false | S _ => true end, S w).

Definition debug_ok (t : CattleTape) (w : nat) : gboolean * CattleTape * nat :=
  (true, t, S w).

Definition node (v : CattleInstructionValue) (q : gint)
  (nxt body : option CattleInstruction) : CattleInstruction :=
  {| value := v; quantity := q; next := nxt; loop := body |}.

(** The body of [[.-]]. *)
Definition print_decrease_body : CattleInstruction :=
  node CATTLE_INSTRUCTION_PRINT 1
    (Some (node CATTLE_INSTRUCTION_DECREASE 1
       (Some (node CATTLE_INSTRUCTION_LOOP_END 1 None None)) None)) None.

(** [++[.-]] *)
Definition print_countdown : CattleInstruction :=
  node CATTLE_INSTRUCTION_INCREASE 2
    (Some (node CATTLE_INSTRUCTION_LOOP_BEGIN 1 None (Some print_decrease_body)))
    None.

(** The body of [[-.+.-]]: the cell is zero at the first print. *)
Definition through_zero_body : CattleInstruction :=
  node CATTLE_INSTRUCTION_DECREASE 1
    (Some (node CATTLE_INSTRUCTION_PRINT 1
       (Some (node CATTLE_INSTRUCTION_INCREASE 1
          (Some (node CATTLE_INSTRUCTION_PRINT 1
             (Some (node CATTLE_INSTRUCTION_DECREASE 1
                (Some (node CATTLE_INSTRUCTION_LOOP_END 1 None None)) None))
             None)) None)) None)) None.

(** [+[-.+.-]] *)
Definition through_zero : CattleInstruction :=
  node CATTLE_INSTRUCTION_INCREASE 1
    (Some (node CATTLE_INSTRUCTION_LOOP_BEGIN 1 None (Some through_zero_body)))
    None.

(** [,,] as one node. *)
Definition read_twice : CattleInstruction :=
  node CATTLE_INSTRUCTION_READ 2 None None.

(** [,] *)
Definition read_once : CattleInstruction :=
  node CATTLE_INSTRUCTION_READ 1 None None.

(** [+] and [...] *)
Definition increase_once : CattleInstruction :=
  node CATTLE_INSTRUCTION_INCREASE 1 None None.

Definition print_thrice : CattleInstruction :=
  node CATTLE_INSTRUCTION_PRINT 3 None None.

(** A new interpreter for a program without literal input. *)
Definition fresh (policy : CattleOnEOFAction) (i : CattleInstruction)
  : CattleInterpreter nat :=
  cattle_interpreter_new
    {| on_eof_action := policy; debug_is_enabled := false |}
    {| instructions := i; input := None |} 0%nat.

(** [,>+,]: the second read finds 1 in its cell. *)
Definition read_right_increase_read : CattleInstruction :=
  node CATTLE_INSTRUCTION_READ 1
    (Some (node CATTLE_INSTRUCTION_MOVE_RIGHT 1
       (Some (node CATTLE_INSTRUCTION_INCREASE 1
          (Some (node CATTLE_INSTRUCTION_READ 1 None None)) None)) None)) None.

(** A new interpreter for a program with the literal input [text]
    attached. *)
Definition fresh_with_input (policy : CattleOnEOFAction)
  (i : CattleInstruction) (text : string) : CattleInterpreter nat :=
  cattle_interpreter_new
    {| on_eof_action := policy; debug_is_enabled := false |}
    {| instructions := i; input := Some text |} 0%nat.

(** The same with [c] written in the current cell. *)
Definition fresh_with_cell (policy : CattleOnEOFAction) (i : CattleInstruction)
  (c : gchar) : CattleInterpreter nat :=
  set_tape (fresh policy i)
    (cattle_tape_set_current_value (tape (fresh policy i)) c).

End Samples.

(** ** Positions and walks to the ends of the tape *)

Module Walk.

Import Tape.

(** The cell at offset [off] of the chunk the node [node] holds; [None]
    outside the allocated cells. *)
Definition cell_at (self : CattleTape) (node off : Z) : option gchar :=
  if 0 <=? off then
    match node_data self node with
    | Some c => c !! Z.to_nat off
    | None => None
    end
  else None.

(** A position inside the allocated chunks that respects the limit of
    the outermost chunk it may lie in. *)
Definition position_ok (self : CattleTape) (node off : Z) : Prop :=
  head self <= node <= last_node self /\
  0 <= off < CHUNK_SIZE /\
  (node = head self -> lower_limit self <= off) /\
  (node = last_node self -> off <= upper_limit self).

(** Tapes as the operations of cattle-tape.c make them: the cursor and
    every bookmark are positions in the sense above. *)
Record tape_wf (self : CattleTape) : Prop := mkTapeWf {
  wf_ok : tape_ok self;
  wf_lower : 0 <= lower_limit self < CHUNK_SIZE;
  wf_upper : 0 <= upper_limit self < CHUNK_SIZE;
  wf_cursor : position_ok self (current self) (offset self);
  wf_bookmarks :
    Forall (fun b => position_ok self (bm_chunk b) (bm_offset b))
           (bookmarks self)
}.

(** Number of cells between the cursor and the first (last) valid one. *)
Definition cells_before (self : CattleTape) : Z :=
  (current self - head self) * CHUNK_SIZE + offset self - lower_limit self.

Definition cells_after (self : CattleTape) : Z :=
  (last_node self - current self) * CHUNK_SIZE + upper_limit self - offset self.

(** [while (!cattle_tape_is_at_beginning (tape)) cattle_tape_move_left (tape);] *)
Fixpoint rewind (fuel : nat) (tape : CattleTape) : option CattleTape :=
  if cattle_tape_is_at_beginning tape then Some tape
  else
    match fuel with
    | O => None
    | S fuel' => rewind fuel' (cattle_tape_move_left tape)
    end.

(** [while (!cattle_tape_is_at_end (tape))
       { value = cattle_tape_get_current_value (tape); ...;
         cattle_tape_move_right (tape); }],
    with the values shown, in order. *)
Fixpoint dump_cells (fuel : nat) (tape : CattleTape) (shown : list gchar)
  : option (CattleTape * list gchar) :=
  if cattle_tape_is_at_end tape then Some (tape, shown)
  else
    match fuel with
    | O => None
    | S fuel' =>
        dump_cells fuel' (cattle_tape_move_right tape)
                   (shown ++ [cattle_tape_get_current_value tape])
    end.

End Walk.

(** ** Sessions: what a run is observed through *)

Module Session.

Import Tape Interp.

(** [cattle_interpreter_set_program] *)
Definition cattle_interpreter_set_program {W : Type}
  (self : CattleInterpreter W) (p : CattleProgram) : CattleInterpreter W :=
  mkInterpreter (configuration self) p (tape self) (had_input self)
    (input_line self) (input_cursor self) (end_of_input_reached self)
    (world self) (events self).

(** The kind of an emission and the value its handler returned. *)
Definition is_input_request (e : event) : bool :=
  match e with InputRequest _ => true | _ => false end.

Definition is_debug_request (e : event) : bool :=
  match e with DebugRequest _ => true | _ => false end.

Definition event_succeeded (e : event) : bool :=
  match e with
  | InputRequest ok => ok
  | OutputRequest _ ok => ok
  | DebugRequest ok => ok
  end.

(** The log ends with an emission whose handler reported failure. *)
Definition ends_with_failure (l : list event) : Prop :=
  exists l' e, l = l' ++ [e] /\ event_succeeded e = false.

(** [[-]] *)
Definition clear_cell : CattleInstruction :=
  {| value := CATTLE_INSTRUCTION_LOOP_BEGIN; quantity := 1; next := None;
     loop := Some {| value := CATTLE_INSTRUCTION_DECREASE; quantity := 1;
                     next := Some {| value := CATTLE_INSTRUCTION_LOOP_END;
                                     quantity := 1; next := None;
                                     loop := None |};
                     loop := None |} |}.

End Session.

(** ** The walk, node by node *)

Module Steps.

Import Tape Interp.

Section Engine.

Context {W : Type}.
Variable input_handler : W -> gboolean * option string * W.
Variable output_handler : gchar -> W -> gboolean * W.
Variable debug_handler : CattleTape -> W -> gboolean * CattleTape * W.
Variable uninitialised : gchar.

Local Abbreviation Interpreter := (CattleInterpreter W).

(** The case [run_real]'s [switch] takes for a node that is neither a
    LoopBegin nor a LoopEnd: what it does to the locals [success] and
    [temp] and to the session.  [None] when the read dereferences a
    [NULL] cursor.  No case looks at the current cell to decide whether
    to go on. *)
Definition node_effect (instruction : CattleInstruction) (success : gboolean)
  (temp : gchar) (self : Interpreter)
  : option (gboolean * gchar * Interpreter) :=
  match value instruction with
  | CATTLE_INSTRUCTION_MOVE_LEFT =>
      Some (success, temp,
            set_tape self
              (Nat.iter (rounds (quantity instruction))
                        cattle_tape_move_left (tape self)))
  | CATTLE_INSTRUCTION_MOVE_RIGHT =>
      Some (success, temp,
            set_tape self
              (Nat.iter (rounds (quantity instruction))
                        cattle_tape_move_right (tape self)))
  | CATTLE_INSTRUCTION_INCREASE =>
      Some (success, temp,
            set_tape self
              (cattle_tape_set_current_value (tape self)
                 (to_gchar (to_gint (cattle_tape_get_current_value (tape self)
                                     + quantity instruction)))))
  | CATTLE_INSTRUCTION_DECREASE =>
      Some (success, temp,
            set_tape self
              (cattle_tape_set_current_value (tape self)
                 (to_gchar (to_gint (cattle_tape_get_current_value (tape self)
                                     - quantity instruction)))))
  | CATTLE_INSTRUCTION_READ =>
      match read_loop input_handler (rounds (quantity instruction))
              success temp self with
      | Some (success1, temp1, self1) =>
          Some (success1, temp1, read_store temp1 self1)
      | None => None
      end
  | CATTLE_INSTRUCTION_PRINT =>
      let '(success1, self1) :=
        print_loop output_handler (rounds (quantity instruction)) success self in
      Some (success1, temp, self1)
  | CATTLE_INSTRUCTION_DUMP_TAPE =>
      if debug_is_enabled (configuration self) then
        let '(success1, self1) :=
          debug_loop debug_handler (rounds (quantity instruction)) success self in
        Some (success1, temp, self1)
      else Some (success, temp, self)
  | CATTLE_INSTRUCTION_NONE
  | CATTLE_INSTRUCTION_LOOP_BEGIN
  | CATTLE_INSTRUCTION_LOOP_END => Some (success, temp, self)
  end.

(** [while (cattle_tape_get_current_value (tape) != 0) success = pass;]
    as a finite sequence of passes: the cell is looked at before each
    pass and after the last one, where it is zero, and [success] is what
    the last pass returned. *)
Inductive passes (pass : Interpreter -> gboolean * Interpreter -> Prop)
  : gboolean -> Interpreter -> gboolean * Interpreter -> Prop :=
| passes_done (success : gboolean) (self : Interpreter) :
    cattle_tape_get_current_value (tape self) = 0 ->
    passes pass success self (success, self)
| passes_more (success : gboolean) (self : Interpreter)
    (success1 : gboolean) (self1 : Interpreter) (r : gboolean * Interpreter) :
    cattle_tape_get_current_value (tape self) <> 0 ->
    pass self (success1, self1) ->
    passes pass success1 self1 r ->
    passes pass success self r.

(** What follows a node's [switch] returns [r]. *)
Definition next_returns (nxt : option CattleInstruction) (success : gboolean)
  (temp : gchar) (self : Interpreter) (r : gboolean * Interpreter) : Prop :=
  exists fuel,
    go_next input_handler output_handler debug_handler uninitialised
      fuel nxt success temp self = Returned r.

End Engine.

End Steps.

(** * Properties *)

(** ** The tape *)

Module TapeFacts.

Import Tape.

Ltac tape_cases :=
  repeat match goal with
         | |- context [if ?b then _ else _] => destruct b eqn:?
         | |- context [match ?o with Some _ => _ | None => _ end] =>
             destruct o eqn:?
         end; simpl in *.

Lemma move_left_bookmarks (t : CattleTape) :
  bookmarks (cattle_tape_move_left t) = bookmarks t.
Proof. unfold cattle_tape_move_left. tape_cases; congruence. Qed.

Lemma move_right_bookmarks (t : CattleTape) :
  bookmarks (cattle_tape_move_right t) = bookmarks t.
Proof. unfold cattle_tape_move_right. tape_cases; congruence. Qed.

Lemma move_left_disposed (t : CattleTape) :
  disposed (cattle_tape_move_left t) = disposed t.
Proof. unfold cattle_tape_move_left. tape_cases; congruence. Qed.

Lemma move_right_disposed (t : CattleTape) :
  disposed (cattle_tape_move_right t) = disposed t.
Proof. unfold cattle_tape_move_right. tape_cases; congruence. Qed.

Lemma apply_move_bookmarks (m : move) (t : CattleTape) :
  bookmarks (apply_move m t) = bookmarks t.
Proof. destruct m; [apply move_left_bookmarks | apply move_right_bookmarks]. Qed.

Lemma apply_move_disposed (m : move) (t : CattleTape) :
  disposed (apply_move m t) = disposed t.
Proof. destruct m; [apply move_left_disposed | apply move_right_disposed]. Qed.

Lemma apply_moves_bookmarks (ms : list move) (t : CattleTape) :
  bookmarks (apply_moves ms t) = bookmarks t.
Proof.
  revert t. induction ms as [|m ms IH]; intros t; simpl; [reflexivity|].
  unfold apply_moves in *. simpl. rewrite IH. apply apply_move_bookmarks.
Qed.

Lemma apply_moves_disposed (ms : list move) (t : CattleTape) :
  disposed (apply_moves ms t) = disposed t.
Proof.
  revert t. induction ms as [|m ms IH]; intros t; simpl; [reflexivity|].
  unfold apply_moves in *. simpl. rewrite IH. apply apply_move_disposed.
Qed.

Ltac z_cases :=
  repeat match goal with
         | H : context [?a =? ?b] |- _ => destruct (Z.eqb_spec a b)
         | |- context [?a =? ?b] => destruct (Z.eqb_spec a b)
         | H : context [?a <? ?b] |- _ => destruct (Z.ltb_spec a b)
         | |- context [?a <? ?b] => destruct (Z.ltb_spec a b)
         end; simpl in *.

Ltac limits_done :=
  split; [reflexivity || congruence |];
  intros Hne; try (exfalso; apply Hne; reflexivity);
  split; z_cases; rewrite ?length_app in *; simpl in *;
  first [reflexivity | congruence | lia].

(** The limits move only under the cursor of an outermost chunk. *)
Lemma move_left_limits (t : CattleTape) :
  upper_limit (cattle_tape_move_left t) = upper_limit t /\
  (lower_limit (cattle_tape_move_left t) <> lower_limit t ->
   in_first_chunk t /\ in_first_chunk (cattle_tape_move_left t)).
Proof.
  unfold cattle_tape_move_left, in_first_chunk, g_list_previous, prepend_chunk.
  destruct (disposed t); simpl; [limits_done|].
  z_cases; limits_done.
Qed.

Lemma move_right_limits (t : CattleTape) :
  lower_limit (cattle_tape_move_right t) = lower_limit t /\
  (upper_limit (cattle_tape_move_right t) <> upper_limit t ->
   in_last_chunk t /\ in_last_chunk (cattle_tape_move_right t)).
Proof.
  unfold cattle_tape_move_right, in_last_chunk, g_list_next, append_chunk, last_node.
  destruct (disposed t); simpl; [limits_done|].
  z_cases; limits_done.
Qed.

(** C10: on a freshly created tape, before any move or write, the cursor
    is both at the beginning and at the end, and the current cell holds
    zero. *)
Theorem fresh_tape_at_both_ends :
  cattle_tape_is_at_beginning cattle_tape_new = true /\
  cattle_tape_is_at_end cattle_tape_new = true /\
  cattle_tape_get_current_value cattle_tape_new = 0 /\
  in_first_chunk cattle_tape_new /\ in_last_chunk cattle_tape_new /\
  offset cattle_tape_new = lower_limit cattle_tape_new /\
  offset cattle_tape_new = upper_limit cattle_tape_new.
Proof. repeat split. Qed.

(** C6: a bookmark pushed before any sequence of single-step moves brings
    the cursor (chunk and offset) back when it is popped after them, and
    on a live tape the pop reports success and leaves the stack as it was
    before the push; a pop on an empty stack reports failure and leaves
    the tape as it is. *)
Theorem bookmark_restores_cursor (t : CattleTape) (ms : list move) :
  let r := cattle_tape_pop_bookmark
             (apply_moves ms (cattle_tape_push_bookmark t)) in
  (current (snd r) = current t /\ offset (snd r) = offset t) /\
  (disposed t = false -> fst r = true /\ bookmarks (snd r) = bookmarks t) /\
  (bookmarks t = [] -> cattle_tape_pop_bookmark t = (false, t)).
Proof.
  simpl. unfold cattle_tape_pop_bookmark.
  rewrite apply_moves_disposed, apply_moves_bookmarks.
  unfold cattle_tape_push_bookmark.
  destruct (disposed t) eqn:Hd; simpl.
  - rewrite Hd.
    assert (Hfix : forall ms', apply_moves ms' t = t).
    { induction ms' as [|m ms' IH]; [reflexivity|].
      unfold apply_moves in *. simpl.
      replace (apply_move m t) with t; [exact IH|].
      destruct m; simpl;
        unfold cattle_tape_move_left, cattle_tape_move_right;
        rewrite Hd; reflexivity. }
    rewrite Hfix. simpl. split; [split; reflexivity|].
    split; [discriminate | reflexivity].
  - rewrite Hd. simpl. split; [split; reflexivity|].
    split; [intros _; split; reflexivity|].
    intros Hb. rewrite Hb. reflexivity.
Qed.

Lemma bookmark_restores_cursor_witness :
  (fst (cattle_tape_pop_bookmark
          (apply_moves [MoveLeft; MoveRight; MoveRight]
             (cattle_tape_push_bookmark cattle_tape_new))) = true /\
   bookmarks (snd (cattle_tape_pop_bookmark
          (apply_moves [MoveLeft; MoveRight; MoveRight]
             (cattle_tape_push_bookmark cattle_tape_new)))) = []) /\
  cattle_tape_pop_bookmark cattle_tape_new = (false, cattle_tape_new).
Proof.
  pose proof (bookmark_restores_cursor cattle_tape_new
                [MoveLeft; MoveRight; MoveRight]) as H.
  simpl in H. destruct H as [_ [H1 H2]].
  split; [apply H1 | apply H2]; reflexivity.
Defined.



End TapeFacts.

(** ** Machine arithmetic *)

Lemma to_gchar_range (z : Z) : -128 <= to_gchar z <= 127.
Proof. unfold to_gchar. pose proof (Z.mod_pos_bound (z + 128) 256). lia. Qed.

Lemma to_gchar_congruent (z : Z) : (to_gchar z - z) mod 256 = 0.
Proof.
  unfold to_gchar.
  rewrite (Z.mod_eq (z + 128) 256) by lia.
  replace (z + 128 - 256 * ((z + 128) / 256) - 128 - z)
    with ((- ((z + 128) / 256)) * 256) by lia.
  apply Z_mod_mult.
Qed.

(** Wrapping at 32 bits before the conversion to [gchar] changes nothing. *)
Lemma to_gchar_to_gint (z : Z) : to_gchar (to_gint z) = to_gchar z.
Proof.
  unfold to_gchar, to_gint.
  rewrite (Z.mod_eq (z + 2147483648) 4294967296) by lia.
  replace (z + 2147483648 - 4294967296 * ((z + 2147483648) / 4294967296)
           - 2147483648 + 128)
    with (z + 128 + (- (16777216 * ((z + 2147483648) / 4294967296))) * 256)
    by lia.
  rewrite Z_mod_plus_full. reflexivity.
Qed.

(** A value in the signed range congruent to [z] modulo 256 is [to_gchar z]. *)
Lemma to_gchar_unique (z r : Z) :
  -128 <= r <= 127 -> (r - z) mod 256 = 0 -> r = to_gchar z.
Proof.
  intros Hr Hc. unfold to_gchar.
  apply Z.mod_divide in Hc; [|lia]. destruct Hc as [k Hk].
  replace (z + 128) with (r + 128 + (- k) * 256) by lia.
  rewrite Z_mod_plus_full. rewrite Z.mod_small by lia. lia.
Qed.

(** ** The interpreter *)

Module InterpFacts.

Import Tape Interp.

Lemma set_then_get (t : CattleTape) (v : gchar) :
  tape_ok t ->
  cattle_tape_get_current_value (cattle_tape_set_current_value t v) = v.
Proof.
  intros [Hlive Hcur Hoff Hch].
  unfold cattle_tape_set_current_value, cattle_tape_get_current_value, node_data.
  rewrite Hlive.
  unfold last_node, CHUNK_SIZE in *.
  destruct (Z.leb_spec (head t) (current t)); [|lia].
  destruct (Z.leb_spec 0 (offset t)); [|lia].
  simpl.
  destruct (Z.leb_spec (head t) (current t)); [|lia].
  destruct (Z.leb_spec 0 (offset t)); [|lia].
  rewrite list_lookup_alter.
  destruct (nodes t !! Z.to_nat (current t - head t)) as [c|] eqn:Hc.
  - simpl. destruct (decide _) as [_|Hne]; [|contradiction].
    rewrite list_lookup_insert_eq; [reflexivity|].
    rewrite Forall_lookup in Hch. rewrite (Hch _ _ Hc). lia.
  - apply lookup_ge_None in Hc. lia.
Qed.

Lemma set_keeps_ok (t : CattleTape) (v : gchar) :
  tape_ok t -> tape_ok (cattle_tape_set_current_value t v).
Proof.
  intros [Hlive Hcur Hoff Hch].
  unfold cattle_tape_set_current_value. rewrite Hlive.
  destruct ((head t <=? current t) && (0 <=? offset t));
    [|constructor; assumption].
  constructor; simpl; try assumption.
  - reflexivity.
  - unfold last_node in *. simpl. rewrite length_alter. exact Hcur.
  - apply Forall_alter; [exact Hch|].
    intros c _ Hc. rewrite length_insert. exact Hc.
Qed.

Lemma fresh_tape_ok : tape_ok cattle_tape_new.
Proof.
  constructor.
  - reflexivity.
  - unfold last_node. simpl. lia.
  - unfold CHUNK_SIZE. simpl. lia.
  - repeat constructor.
Qed.

Lemma alloc0_length : length g_slice_alloc0 = Z.to_nat CHUNK_SIZE.
Proof. apply length_replicate. Qed.

(** The cursor stays inside an allocated chunk under single-step moves. *)
Lemma move_left_keeps_ok (t : CattleTape) :
  tape_ok t -> tape_ok (cattle_tape_move_left t).
Proof.
  intros [Hlive Hcur Hoff Hch].
  unfold cattle_tape_move_left, g_list_previous, prepend_chunk.
  rewrite Hlive. unfold last_node, CHUNK_SIZE in *.
  TapeFacts.z_cases; constructor; unfold last_node, CHUNK_SIZE; simpl;
    try assumption; try lia.
  all: constructor; [apply alloc0_length | exact Hch].
Qed.

Lemma move_right_keeps_ok (t : CattleTape) :
  tape_ok t -> tape_ok (cattle_tape_move_right t).
Proof.
  intros [Hlive Hcur Hoff Hch].
  unfold cattle_tape_move_right, g_list_next, append_chunk.
  rewrite Hlive. unfold last_node, CHUNK_SIZE in *.
  TapeFacts.z_cases; constructor; unfold last_node, CHUNK_SIZE; simpl;
    rewrite ?length_app; simpl; try assumption; try lia.
  all: apply Forall_app; split; [exact Hch|].
  all: constructor; [apply alloc0_length | constructor].
Qed.

Section Engine.

Context {W : Type}.
Variable input_handler : W -> gboolean * option string * W.
Variable output_handler : gchar -> W -> gboolean * W.
Variable debug_handler : CattleTape -> W -> gboolean * CattleTape * W.
Variable uninitialised : gchar.

Local Abbreviation Interpreter := (CattleInterpreter W).
Local Abbreviation do_while' :=
  (do_while input_handler output_handler debug_handler uninitialised).
Local Abbreviation go_next' :=
  (go_next input_handler output_handler debug_handler uninitialised).
Local Abbreviation returns' :=
  (returns input_handler output_handler debug_handler uninitialised).

(** One round of the [do ... while]. *)
Lemma do_while_S (fuel : nat) (i : CattleInstruction) (success : gboolean)
  (temp : gchar) (self : Interpreter) :
  do_while' (S fuel) i success temp self =
  match value i with
  | CATTLE_INSTRUCTION_LOOP_BEGIN =>
      match loop i with
      | Some body =>
          match while_loop fuel
                  (fun s => do_while' fuel body true uninitialised s)
                  success self with
          | Returned (success1, self1) => go_next' fuel (next i) success1 temp self1
          | Crashed => Crashed
          | OutOfFuel => OutOfFuel
          end
      | None => go_next' fuel (next i) success temp self
      end
  | CATTLE_INSTRUCTION_LOOP_END => Returned (success, self)
  | CATTLE_INSTRUCTION_MOVE_LEFT =>
      go_next' fuel (next i) success temp
        (set_tape self
           (Nat.iter (rounds (quantity i)) cattle_tape_move_left (tape self)))
  | CATTLE_INSTRUCTION_MOVE_RIGHT =>
      go_next' fuel (next i) success temp
        (set_tape self
           (Nat.iter (rounds (quantity i)) cattle_tape_move_right (tape self)))
  | CATTLE_INSTRUCTION_INCREASE =>
      go_next' fuel (next i) success temp
        (set_tape self
           (cattle_tape_set_current_value (tape self)
              (to_gchar (to_gint (cattle_tape_get_current_value (tape self)
                                  + quantity i)))))
  | CATTLE_INSTRUCTION_DECREASE =>
      go_next' fuel (next i) success temp
        (set_tape self
           (cattle_tape_set_current_value (tape self)
              (to_gchar (to_gint (cattle_tape_get_current_value (tape self)
                                  - quantity i)))))
  | CATTLE_INSTRUCTION_READ =>
      match read_loop input_handler (rounds (quantity i)) success temp self with
      | Some (success1, temp1, self1) =>
          go_next' fuel (next i) success1 temp1 (read_store temp1 self1)
      | None => Crashed
      end
  | CATTLE_INSTRUCTION_PRINT =>
      let '(success1, self1) :=
        print_loop output_handler (rounds (quantity i)) success self in
      go_next' fuel (next i) success1 temp self1
  | CATTLE_INSTRUCTION_DUMP_TAPE =>
      if debug_is_enabled (configuration self) then
        let '(success1, self1) :=
          debug_loop debug_handler (rounds (quantity i)) success self in
        go_next' fuel (next i) success1 temp self1
      else go_next' fuel (next i) success temp self
  | CATTLE_INSTRUCTION_NONE => go_next' fuel (next i) success temp self
  end.
Proof. reflexivity. Qed.

(** C4: an Increase (a Decrease) node writes the current cell once, with
    the cell's value plus (minus) the node's quantity reduced modulo 256
    into -128..127; 127 + 1 gives -128. *)
Theorem increase_decrease_wrap (fuel : nat) (i : CattleInstruction)
  (success : gboolean) (temp : gchar) (self : Interpreter) :
  tape_ok (tape self) ->
  let v := cattle_tape_get_current_value (tape self) in
  let q := quantity i in
  (value i = CATTLE_INSTRUCTION_INCREASE ->
   exists r,
     do_while' (S fuel) i success temp self =
       go_next' fuel (next i) success temp
         (set_tape self (cattle_tape_set_current_value (tape self) r)) /\
     cattle_tape_get_current_value
       (cattle_tape_set_current_value (tape self) r) = r /\
     -128 <= r <= 127 /\ (r - (v + q)) mod 256 = 0 /\
     (v = 127 -> q = 1 -> r = -128)) /\
  (value i = CATTLE_INSTRUCTION_DECREASE ->
   exists r,
     do_while' (S fuel) i success temp self =
       go_next' fuel (next i) success temp
         (set_tape self (cattle_tape_set_current_value (tape self) r)) /\
     cattle_tape_get_current_value
       (cattle_tape_set_current_value (tape self) r) = r /\
     -128 <= r <= 127 /\ (r - (v - q)) mod 256 = 0 /\
     (v = -128 -> q = 1 -> r = 127)).
Proof.
  intros Hok v q. split; intros Hv.
  - exists (to_gchar (v + q)). rewrite do_while_S, Hv, to_gchar_to_gint.
    repeat split.
    + apply set_then_get. exact Hok.
    + apply to_gchar_range.
    + apply to_gchar_range.
    + apply to_gchar_congruent.
    + intros -> ->. reflexivity.
  - exists (to_gchar (v - q)). rewrite do_while_S, Hv, to_gchar_to_gint.
    repeat split.
    + apply set_then_get. exact Hok.
    + apply to_gchar_range.
    + apply to_gchar_range.
    + apply to_gchar_congruent.
    + intros -> ->. reflexivity.
Qed.

(** The print loop: every emission carries the current cell's value,
    and nothing is emitted after one that failed. *)
Lemma print_loop_events (n : nat) (self : Interpreter) :
  let v := cattle_tape_get_current_value (tape self) in
  let r := print_loop output_handler n true self in
  tape (snd r) = tape self /\
  ((fst r = true /\
    events (snd r) = events self ++ repeat (OutputRequest v true) n) \/
   (fst r = false /\
    exists k, (k < n)%nat /\
      events (snd r) =
        events self ++ repeat (OutputRequest v true) k
                    ++ [OutputRequest v false])).
Proof.
  revert self. induction n as [|n IH]; intros self; simpl.
  - split; [reflexivity|]. left. split; [reflexivity|].
    rewrite app_nil_r. reflexivity.
  - unfold emit_output_request.
    destruct (output_handler (cattle_tape_get_current_value (tape self))
                (world self)) as [ok w] eqn:Hh.
    destruct ok; simpl.
    + match goal with
      | |- context [print_loop _ n true ?s] =>
          specialize (IH s); set (self1 := s) in *
      end.
      simpl in IH. destruct IH as [Ht IH]. split; [exact Ht|].
      destruct IH as [[Hok Hev] | [Hok [k [Hk Hev]]]].
      * left. split; [exact Hok|]. rewrite Hev. simpl.
        rewrite <- app_assoc. reflexivity.
      * right. split; [exact Hok|]. exists (S k). split; [lia|].
        rewrite Hev. simpl. rewrite <- app_assoc. reflexivity.
    + split; [reflexivity|]. right. split; [reflexivity|].
      exists 0%nat. split; [lia|]. reflexivity.
Qed.

(** C9: a Print node of quantity [n] emits the output request with the
    current cell's value at most [n] times: either all [n] emissions
    succeed, or the emissions end with the first one that fails, fewer
    than [n] having succeeded before it; the walk then goes on with the
    flag the loop left. *)
Theorem print_stops_at_first_failure (fuel : nat) (i : CattleInstruction)
  (temp : gchar) (self : Interpreter) (n : nat) :
  value i = CATTLE_INSTRUCTION_PRINT ->
  quantity i = Z.of_nat n ->
  let v := cattle_tape_get_current_value (tape self) in
  exists ok self',
    do_while' (S fuel) i true temp self = go_next' fuel (next i) ok temp self' /\
    tape self' = tape self /\
    ((ok = true /\
      events self' = events self ++ repeat (OutputRequest v true) n) \/
     (ok = false /\
      exists k, (k < n)%nat /\
        events self' =
          events self ++ repeat (OutputRequest v true) k
                      ++ [OutputRequest v false])).
Proof.
  intros Hv Hq v.
  pose proof (print_loop_events n self) as H. simpl in H.
  rewrite do_while_S, Hv, Hq. unfold rounds. rewrite Nat2Z.id.
  destruct (print_loop output_handler n true self) as [ok self'].
  exists ok, self'. split; [reflexivity|]. exact H.
Qed.

(** Steps 1 and 2 of a read leave the tape and the configuration alone. *)
Lemma read_fetch_frame (success : gboolean) (self : Interpreter) :
  let r := read_fetch input_handler success self in
  tape (snd r) = tape self /\ configuration (snd r) = configuration self /\
  (fst (fst r) = true -> end_of_input_reached (snd r) = false).
Proof.
  unfold read_fetch, emit_input_request.
  destruct (had_input self); simpl; [repeat split; discriminate|].
  destruct (end_of_input_reached self) eqn:He; simpl;
    [repeat split; discriminate|].
  destruct (cursor_exhausted (input_cursor self)); simpl;
    [|repeat split; discriminate].
  destruct (input_handler (world self)) as [[ok line] w].
  destruct ok; simpl.
  - destruct line; simpl; repeat split; discriminate.
  - repeat split.
Qed.

Lemma read_char_frame (self : Interpreter) (temp : gchar) (self1 : Interpreter) :
  read_char self = Some (temp, self1) ->
  tape self1 = tape self /\ configuration self1 = configuration self /\
  (end_of_input_reached self1 = true -> temp = EOF_char).
Proof.
  unfold read_char.
  destruct (end_of_input_reached self) eqn:He.
  - intros [= <- <-]. repeat split.
  - destruct (input_cursor self) as [p|]; [|discriminate].
    destruct (to_gchar (g_utf8_get_char p) =? 0).
    + destruct (input (program self)).
      * intros [= <- <-]. repeat split. congruence.
      * intros [= <- <-]. repeat split.
    + intros [= <- <-]. repeat split. simpl. congruence.
Qed.

(** Once the end of input is flagged after at least one round, the
    character the loop leaves in [temp] is the end-of-file marker. *)
Lemma read_loop_frame (n : nat) (success : gboolean) (temp : gchar)
  (self : Interpreter) (success1 : gboolean) (temp1 : gchar)
  (self1 : Interpreter) :
  read_loop input_handler (S n) success temp self = Some (success1, temp1, self1) ->
  tape self1 = tape self /\ configuration self1 = configuration self /\
  (end_of_input_reached self1 = true -> temp1 = EOF_char).
Proof.
  revert success temp self.
  induction n as [|n IH]; intros success temp self.
  - simpl.
    pose proof (read_fetch_frame success self) as Hf. simpl in Hf.
    destruct (read_fetch input_handler success self) as [[brk s1] selfA].
    simpl in Hf. destruct Hf as [Ht [Hc He]].
    destruct brk.
    + intros [= <- <- <-]. repeat split; try assumption.
      intros Hflag. rewrite He in Hflag by reflexivity. discriminate.
    + destruct (read_char selfA) as [[t1 selfB]|] eqn:Hrc; [|discriminate].
      intros [= <- <- <-].
      destruct (read_char_frame _ _ _ Hrc) as [Ht' [Hc' He']].
      split; [congruence|]. split; [congruence|]. exact He'.
  - remember (S n) as m eqn:Hm. simpl.
    pose proof (read_fetch_frame success self) as Hf. simpl in Hf.
    destruct (read_fetch input_handler success self) as [[brk s1] selfA].
    simpl in Hf. destruct Hf as [Ht [Hc He]].
    destruct brk.
    + intros [= <- <- <-]. repeat split; try assumption.
      intros Hflag. rewrite He in Hflag by reflexivity. discriminate.
    + destruct (read_char selfA) as [[t1 selfB]|] eqn:Hrc; [|discriminate].
      destruct (read_char_frame _ _ _ Hrc) as [Ht' [Hc' _]].
      subst m. intros Hloop. apply IH in Hloop.
      destruct Hloop as [Ht'' [Hc'' He'']].
      split; [congruence|]. split; [congruence|]. exact He''.
Qed.

(** When a Read node has run its rounds and the session's
    [end_of_input_reached] flag is set, the store that follows treats the
    current cell as the configured policy says: zero under StoreZero, the
    end-of-file marker (-1) under StoreEOF, the cell as it was under
    DoNothing.  The flag is set by the input handler's [NULL] or empty
    line only, never by the end of a literal input. *)
Lemma read_at_flagged_end_applies_policy (fuel : nat) (i : CattleInstruction)
  (success : gboolean) (temp : gchar) (self : Interpreter) (n : nat)
  (success1 : gboolean) (temp1 : gchar) (self1 : Interpreter) :
  tape_ok (tape self) ->
  value i = CATTLE_INSTRUCTION_READ ->
  quantity i = Z.of_nat (S n) ->
  read_loop input_handler (S n) success temp self = Some (success1, temp1, self1) ->
  end_of_input_reached self1 = true ->
  do_while' (S fuel) i success temp self =
    go_next' fuel (next i) success1 temp1 (read_store temp1 self1) /\
  match on_eof_action (configuration self) with
  | CATTLE_ON_EOF_STORE_ZERO =>
      cattle_tape_get_current_value (tape (read_store temp1 self1)) = 0
  | CATTLE_ON_EOF_STORE_EOF =>
      cattle_tape_get_current_value (tape (read_store temp1 self1)) = -1
  | CATTLE_ON_EOF_DO_NOTHING =>
      tape (read_store temp1 self1) = tape self
  end.
Proof.
  intros Hok Hv Hq Hloop Hflag.
  destruct (read_loop_frame _ _ _ _ _ _ _ Hloop) as [Ht [Hc He]].
  specialize (He Hflag). subst temp1.
  split.
  - rewrite do_while_S, Hv, Hq. unfold rounds. rewrite Nat2Z.id, Hloop.
    reflexivity.
  - unfold read_store. rewrite Z.eqb_refl, Hc.
    destruct (on_eof_action (configuration self)); simpl; rewrite ?Ht.
    + apply set_then_get. exact Hok.
    + apply (set_then_get _ EOF_char). exact Hok.
    + reflexivity.
Qed.

(** One test of the [while] condition. *)
Lemma while_loop_S (fuel : nat)
  (R : Interpreter -> result (gboolean * Interpreter))
  (success : gboolean) (self : Interpreter) :
  while_loop (S fuel) R success self =
  if cattle_tape_get_current_value (tape self) =? 0
  then Returned (success, self)
  else match R self with
       | Returned (success1, self1) => while_loop fuel R success1 self1
       | Crashed => Crashed
       | OutOfFuel => OutOfFuel
       end.
Proof. reflexivity. Qed.

(** More fuel never changes a returned result. *)
Lemma while_loop_mono (f f' : nat)
  (R R' : Interpreter -> result (gboolean * Interpreter))
  (success : gboolean) (self : Interpreter) (r : gboolean * Interpreter) :
  (f <= f')%nat ->
  (forall x y, R x = Returned y -> R' x = Returned y) ->
  while_loop f R success self = Returned r ->
  while_loop f' R' success self = Returned r.
Proof.
  intros Hle HR. revert f' Hle success self.
  induction f as [|f IH]; intros f' Hle success self.
  - destruct f'; simpl;
      destruct (cattle_tape_get_current_value (tape self) =? 0);
      congruence.
  - destruct f' as [|f']; [lia|]. simpl.
    destruct (cattle_tape_get_current_value (tape self) =? 0); [congruence|].
    destruct (R self) as [[s1 self1]| |] eqn:HRs; try discriminate.
    rewrite (HR _ _ HRs). apply IH. lia.
Qed.

Lemma do_while_mono (f f' : nat) (i : CattleInstruction) (success : gboolean)
  (temp : gchar) (self : Interpreter) (r : gboolean * Interpreter) :
  (f <= f')%nat ->
  do_while' f i success temp self = Returned r ->
  do_while' f' i success temp self = Returned r.
Proof.
  revert f' i success temp self r.
  induction f as [|f IH]; intros f' i success temp self r Hle; [discriminate|].
  destruct f' as [|f']; [lia|].
  assert (Hgo : forall nxt s t x y,
             go_next' f nxt s t x = Returned y ->
             go_next' f' nxt s t x = Returned y).
  { intros nxt s t x y. unfold go_next.
    destruct nxt as [i'|]; [|congruence].
    destruct s; [|congruence]. apply IH. lia. }
  rewrite !do_while_S.
  destruct (value i); try (apply Hgo).
  - destruct (loop i) as [body|]; [|apply Hgo].
    destruct (while_loop f _ success self) as [[s1 self1]| |] eqn:Hw;
      try discriminate.
    rewrite (while_loop_mono f f' _
               (fun s => do_while' f' body true uninitialised s) _ _ _
               ltac:(lia) ltac:(intros x y; apply IH; lia) Hw).
    apply Hgo.
  - congruence.
  - destruct (read_loop input_handler _ success temp self) as [[[s1 t1] self1]|];
      [apply Hgo | discriminate].
  - destruct (print_loop output_handler _ success self) as [s1 self1].
    apply Hgo.
  - destruct (debug_is_enabled (configuration self)); [|apply Hgo].
    destruct (debug_loop debug_handler _ success self) as [s1 self1].
    apply Hgo.
Qed.

Lemma go_next_mono (f f' : nat) (nxt : option CattleInstruction)
  (success : gboolean) (temp : gchar) (self : Interpreter)
  (r : gboolean * Interpreter) :
  (f <= f')%nat ->
  go_next' f nxt success temp self = Returned r ->
  go_next' f' nxt success temp self = Returned r.
Proof.
  intros Hle. unfold go_next.
  destruct nxt as [i'|]; [|congruence].
  destruct success; [|congruence]. apply do_while_mono. exact Hle.
Qed.

Lemma while_passes (fuel : nat)
  (R : Interpreter -> result (gboolean * Interpreter))
  (pass : Interpreter -> gboolean * Interpreter -> Prop)
  (success : gboolean) (self : Interpreter) (r : gboolean * Interpreter) :
  (forall x y, R x = Returned y -> pass x y) ->
  while_loop fuel R success self = Returned r ->
  Steps.passes pass success self r.
Proof.
  intros HR. revert success self.
  induction fuel as [|fuel IH]; intros success self; simpl;
    destruct (Z.eqb_spec (cattle_tape_get_current_value (tape self)) 0)
      as [Hz|Hnz]; try discriminate;
    try (intros [= <-]; apply Steps.passes_done; exact Hz).
  destruct (R self) as [[s1 self1]| |] eqn:HRs; try discriminate.
  intros H. eapply Steps.passes_more; [exact Hnz | apply HR, HRs | apply IH, H].
Qed.

Lemma passes_while (body : CattleInstruction) (success : gboolean)
  (self : Interpreter) (r : gboolean * Interpreter) :
  Steps.passes (returns' body true uninitialised) success self r ->
  exists f, forall f', (f <= f')%nat ->
    while_loop f' (fun x => do_while' f' body true uninitialised x) success self
    = Returned r.
Proof.
  induction 1 as [success self Hz
                 |success self s1 self1 r Hnz [f1 Hpass] _ [f2 IH]].
  - exists 0%nat. intros f' _. apply Z.eqb_eq in Hz.
    destruct f'; simpl; rewrite Hz; reflexivity.
  - exists (S (Nat.max f1 f2)). intros f' Hf'.
    destruct f' as [|f']; [lia|].
    rewrite while_loop_S. apply Z.eqb_neq in Hnz. rewrite Hnz.
    rewrite (do_while_mono f1 (S f') _ _ _ _ _ ltac:(lia) Hpass).
    apply (while_loop_mono f' f'
             (fun x => do_while' f' body true uninitialised x)
             (fun x => do_while' (S f') body true uninitialised x)
             _ _ _ (Nat.le_refl f')).
    + intros x y. apply do_while_mono. lia.
    + apply IH. lia.
Qed.

(** The [switch] and what follows it, for a node that is not a loop
    bracket. *)
Lemma do_while_node (fuel : nat) (n : CattleInstruction) (success : gboolean)
  (temp : gchar) (self : Interpreter) :
  value n <> CATTLE_INSTRUCTION_LOOP_BEGIN ->
  value n <> CATTLE_INSTRUCTION_LOOP_END ->
  do_while' (S fuel) n success temp self =
  match Steps.node_effect input_handler output_handler debug_handler
          n success temp self with
  | Some (success1, temp1, self1) => go_next' fuel (next n) success1 temp1 self1
  | None => Crashed
  end.
Proof.
  intros Hb He. rewrite do_while_S. unfold Steps.node_effect.
  destruct (value n); try contradiction; try reflexivity.
  - destruct (read_loop input_handler _ success temp self) as [[[s1 t1] x1]|];
      reflexivity.
  - destruct (print_loop output_handler _ success self) as [s1 x1]. reflexivity.
  - destruct (debug_is_enabled (configuration self)); [|reflexivity].
    destruct (debug_loop debug_handler _ success self) as [s1 x1]. reflexivity.
Qed.

(** C5: a LoopBegin node with a body returns exactly what a finite
    sequence of passes followed by its [next] edge returns: the current
    cell is tested before each pass and after the last, every pass but
    none after it starts on a non-zero cell, and when the test finds
    zero the walk goes to the node's [next] edge.  A pass is a whole
    walk of the body chain: each node that is not a loop bracket has the
    effect of its [switch] case, which never consults the cell, and is
    followed by its own [next] node as long as there is one and no
    callback failed; a nested LoopBegin is again such a loop; the walk
    of the chain returns at its LoopEnd or at its last node. *)
Theorem loop_checks_between_passes (i body : CattleInstruction) :
  value i = CATTLE_INSTRUCTION_LOOP_BEGIN ->
  loop i = Some body ->
  (forall success temp self r,
     returns' i success temp self r <->
     exists success1 self1,
       Steps.passes (returns' body true uninitialised) success self
                    (success1, self1) /\
       Steps.next_returns input_handler output_handler debug_handler
         uninitialised (next i) success1 temp self1 r) /\
  (forall fuel temp self,
     cattle_tape_get_current_value (tape self) = 0 ->
     do_while' (S fuel) i true temp self = go_next' fuel (next i) true temp self) /\
  (forall n success temp self r,
     value n <> CATTLE_INSTRUCTION_LOOP_BEGIN ->
     value n <> CATTLE_INSTRUCTION_LOOP_END ->
     (returns' n success temp self r <->
      exists success1 temp1 self1,
        Steps.node_effect input_handler output_handler debug_handler
          n success temp self = Some (success1, temp1, self1) /\
        Steps.next_returns input_handler output_handler debug_handler
          uninitialised (next n) success1 temp1 self1 r)) /\
  (forall e success temp self r,
     value e = CATTLE_INSTRUCTION_LOOP_END ->
     (returns' e success temp self r <-> r = (success, self))) /\
  (forall nxt success temp self r,
     Steps.next_returns input_handler output_handler debug_handler
       uninitialised nxt success temp self r <->
     match nxt with
     | Some n => if success then returns' n true temp self r
                 else r = (false, self)
     | None => r = (success, self)
     end).
Proof.
  intros Hv Hl. split; [|split; [|split; [|split]]].
  - intros success temp self r. split.
    + intros [f Hrun]. destruct f as [|f]; [discriminate|].
      rewrite do_while_S, Hv, Hl in Hrun.
      destruct (while_loop f _ success self) as [[s1 self1]| |] eqn:Hw;
        try discriminate.
      exists s1, self1. split.
      * apply (while_passes f _ _ _ _ _
                 (fun x y Hxy => ex_intro _ f Hxy) Hw).
      * exists f. exact Hrun.
    + intros (s1 & self1 & Hp & [f3 Hn]).
      destruct (passes_while body success self (s1, self1) Hp) as [f2 Hw].
      exists (S (Nat.max f2 f3)).
      rewrite do_while_S, Hv, Hl, (Hw (Nat.max f2 f3)) by lia.
      apply (go_next_mono f3); [lia | exact Hn].
  - intros fuel temp self Hz.
    rewrite do_while_S, Hv, Hl.
    destruct fuel; simpl; rewrite Hz; reflexivity.
  - intros n success temp self r Hb He. split.
    + intros [f Hrun]. destruct f as [|f]; [discriminate|].
      rewrite (do_while_node f n success temp self Hb He) in Hrun.
      destruct (Steps.node_effect _ _ _ n success temp self)
        as [[[s1 t1] x1]|]; [|discriminate].
      exists s1, t1, x1. split; [reflexivity|]. exists f. exact Hrun.
    + intros (s1 & t1 & x1 & Heff & [f Hn]). exists (S f).
      rewrite (do_while_node f n success temp self Hb He), Heff. exact Hn.
  - intros e success temp self r He. split.
    + intros [f Hrun]. destruct f as [|f]; [discriminate|].
      rewrite do_while_S, He in Hrun. congruence.
    + intros ->. exists 1%nat. rewrite do_while_S, He. reflexivity.
  - intros nxt success temp self r. unfold Steps.next_returns, go_next.
    destruct nxt as [n|].
    + destruct success.
      * split; intros [f H]; exists f; exact H.
      * split; [intros [f H]; congruence | intros ->; exists 0%nat; reflexivity].
    + split; [intros [f H]; congruence | intros ->; exists 0%nat; reflexivity].
Qed.

(** A failed pass over the body does not end the [while]: with the cell
    still non-zero the body is run again. *)
Lemma failed_pass_is_followed_by_another (fuel : nat)
  (R : Interpreter -> result (gboolean * Interpreter))
  (self self1 : Interpreter) :
  cattle_tape_get_current_value (tape self) <> 0 ->
  cattle_tape_get_current_value (tape self1) <> 0 ->
  R self = Returned (false, self1) ->
  while_loop (S (S fuel)) R true self =
  match R self1 with
  | Returned (success2, self2) => while_loop fuel R success2 self2
  | Crashed => Crashed
  | OutOfFuel => OutOfFuel
  end.
Proof.
  intros H0 H1 HR. apply Z.eqb_neq in H0, H1.
  rewrite while_loop_S, H0, HR, while_loop_S, H1. reflexivity.
Qed.

End Engine.

Import Samples.

Lemma fresh_with_cell_ok (policy : CattleOnEOFAction) (i : CattleInstruction)
  (c : gchar) : tape_ok (tape (fresh_with_cell policy i c)).
Proof. apply set_keeps_ok, fresh_tape_ok. Qed.

(** C1, on [++[.-]] with an output handler that fails at its first call
    only: the failure ends the first pass over the body, yet the loop
    runs the body twice more, two further output requests are made, and
    the run reports success. *)
Theorem loop_goes_on_after_failed_pass :
  exists self',
    cattle_interpreter_run input_at_end output_fails_once debug_ok 0 10
      (fresh CATTLE_ON_EOF_STORE_ZERO print_countdown)
    = Returned (true, self') /\
    events self' =
      [OutputRequest 2 false; OutputRequest 2 true; OutputRequest 1 true] /\
    cattle_tape_get_current_value (tape self') = 0.
Proof. eexists. split; [vm_compute; reflexivity|]. split; reflexivity. Qed.

(** C2, on a Read node of quantity 2 under the DoNothing policy, with the
    line ["a"] and then the end of input, the cell holding 5: the code
    consumes in both rounds and stores once after them, so the cell keeps
    5; storing in each round leaves 97, the ['a'] of the first round. *)
Theorem read_stores_once_after_rounds :
  (exists self',
     run_real input_a_then_end output_ok debug_ok 0 1
       (fresh_with_cell CATTLE_ON_EOF_DO_NOTHING read_twice 5) read_twice
     = Returned (true, self') /\
     events self' = [InputRequest true; InputRequest true] /\
     cattle_tape_get_current_value (tape self') = 5) /\
  (exists temp self'',
     read_as_specified input_a_then_end 2 true 0
       (fresh_with_cell CATTLE_ON_EOF_DO_NOTHING read_twice 5)
     = Some (true, temp, self'') /\
     events self'' = [InputRequest true; InputRequest true] /\
     cattle_tape_get_current_value (tape self'') = 97).
Proof.
  split.
  - eexists. split; [vm_compute; reflexivity|]. split; reflexivity.
  - eexists. eexists. split; [vm_compute; reflexivity|]. split; reflexivity.
Qed.

(** A pass goes on through a zero cell: in [+[-.+.-]] the first print
    shows 0 from inside the body and the second one is still made. *)
Example pass_runs_through_zero :
  exists self',
    cattle_interpreter_run input_at_end output_ok debug_ok 0 10
      (fresh CATTLE_ON_EOF_STORE_ZERO through_zero)
    = Returned (true, self') /\
    events self' = [OutputRequest 0 true; OutputRequest 1 true].
Proof. eexists. split; [vm_compute; reflexivity|]. reflexivity. Qed.

(** The end of a literal input attached to the program does not flag the
    end of input: a read there stores the terminating NUL, here under the
    StoreEOF policy. *)
Example read_past_literal_input :
  exists self',
    cattle_interpreter_run input_at_end output_ok debug_ok 0 1
      (set_tape
         (cattle_interpreter_new
            {| on_eof_action := CATTLE_ON_EOF_STORE_EOF;
               debug_is_enabled := false |}
            {| instructions := read_once; input := Some ""%string |} 0%nat)
         (cattle_tape_set_current_value cattle_tape_new 5))
    = Returned (true, self') /\
    end_of_input_reached self' = false /\
    events self' = [] /\
    cattle_tape_get_current_value (tape self') = 0.
Proof. eexists. split; [vm_compute; reflexivity|]. repeat split. Qed.

(** C8, on [,>+,] with the one character ["a"] of input: the second read
    is at the end of the input and finds 1 in its cell.  When the input
    is the literal one attached to the program, the read stores 0 under
    the StoreEOF policy (not the end-of-file marker -1) and under the
    DoNothing policy (the cell does not keep its 1), and the end of input
    is never flagged; when the same character comes from the input
    handler, which then reports the end of input, the policy is applied:
    -1 under StoreEOF, the cell kept at 1 under DoNothing. *)
Theorem read_at_literal_end_ignores_policy :
  (exists self',
     cattle_interpreter_run input_at_end output_ok debug_ok 0 10
       (fresh_with_input CATTLE_ON_EOF_STORE_EOF read_right_increase_read "a")
     = Returned (true, self') /\
     events self' = [] /\
     end_of_input_reached self' = false /\
     cattle_tape_get_current_value (cattle_tape_move_left (tape self')) = 97 /\
     cattle_tape_get_current_value (tape self') = 0) /\
  (exists self',
     cattle_interpreter_run input_at_end output_ok debug_ok 0 10
       (fresh_with_input CATTLE_ON_EOF_DO_NOTHING read_right_increase_read "a")
     = Returned (true, self') /\
     events self' = [] /\
     end_of_input_reached self' = false /\
     cattle_tape_get_current_value (cattle_tape_move_left (tape self')) = 97 /\
     cattle_tape_get_current_value (tape self') = 0) /\
  (exists self',
     cattle_interpreter_run input_a_then_end output_ok debug_ok 0 10
       (fresh CATTLE_ON_EOF_STORE_EOF read_right_increase_read)
     = Returned (true, self') /\
     events self' = [InputRequest true; InputRequest true] /\
     end_of_input_reached self' = true /\
     cattle_tape_get_current_value (cattle_tape_move_left (tape self')) = 97 /\
     cattle_tape_get_current_value (tape self') = -1) /\
  (exists self',
     cattle_interpreter_run input_a_then_end output_ok debug_ok 0 10
       (fresh CATTLE_ON_EOF_DO_NOTHING read_right_increase_read)
     = Returned (true, self') /\
     events self' = [InputRequest true; InputRequest true] /\
     end_of_input_reached self' = true /\
     cattle_tape_get_current_value (cattle_tape_move_left (tape self')) = 97 /\
     cattle_tape_get_current_value (tape self') = 1).
Proof.
  split; [|split; [|split]];
    (eexists; split; [vm_compute; reflexivity|]; repeat split).
Qed.

Lemma increase_decrease_wrap_witness :
  exists r,
    cattle_tape_get_current_value
      (cattle_tape_set_current_value
         (tape (fresh_with_cell CATTLE_ON_EOF_STORE_ZERO increase_once 127)) r) = r /\
    r = -128.
Proof.
  destruct (increase_decrease_wrap input_at_end output_ok debug_ok 0 0
              increase_once true 0
              (fresh_with_cell CATTLE_ON_EOF_STORE_ZERO increase_once 127)
              (fresh_with_cell_ok _ _ _)) as [Hinc _].
  destruct (Hinc eq_refl) as [r [_ [Hget [_ [_ H127]]]]].
  exists r. split; [exact Hget|]. apply H127; reflexivity.
Defined.

Lemma print_stops_at_first_failure_witness :
  exists ok self',
    do_while input_at_end output_fails_once debug_ok 0 1 print_thrice true 0
      (fresh CATTLE_ON_EOF_STORE_ZERO print_thrice)
    = go_next input_at_end output_fails_once debug_ok 0 0 None ok 0 self' /\
    tape self' = tape (fresh CATTLE_ON_EOF_STORE_ZERO print_thrice).
Proof.
  destruct (print_stops_at_first_failure input_at_end output_fails_once
              debug_ok 0 0 print_thrice 0
              (fresh CATTLE_ON_EOF_STORE_ZERO print_thrice) 3
              eq_refl eq_refl) as [ok [self' [H1 [H2 _]]]].
  exists ok, self'. split; [exact H1 | exact H2].
Defined.

Example read_at_flagged_end_under_store_eof :
  cattle_tape_get_current_value
    (tape (read_store EOF_char
       (set_end_of_input_reached
          (mkInterpreter
             {| on_eof_action := CATTLE_ON_EOF_STORE_EOF;
                debug_is_enabled := false |}
             {| instructions := read_once; input := None |}
             (tape (fresh_with_cell CATTLE_ON_EOF_STORE_EOF read_once 5))
             false None None false 1%nat [InputRequest true])
          true))) = -1.
Proof.
  exact (proj2 (read_at_flagged_end_applies_policy input_at_end output_ok debug_ok 0 0
                  read_once true 0
                  (fresh_with_cell CATTLE_ON_EOF_STORE_EOF read_once 5) 0
                  true EOF_char _
                  (fresh_with_cell_ok _ _ _) eq_refl eq_refl eq_refl eq_refl)).
Defined.

Lemma loop_checks_between_passes_witness :
  exists r success1 self1,
    Steps.passes
      (returns input_at_end output_ok debug_ok 0 through_zero_body true 0)
      true (fresh_with_cell CATTLE_ON_EOF_STORE_ZERO through_zero 1)
      (success1, self1) /\
    Steps.next_returns input_at_end output_ok debug_ok 0 None success1 0 self1 r /\
    events (snd r) = [OutputRequest 0 true; OutputRequest 1 true].
Proof.
  assert (H : exists r,
             do_while input_at_end output_ok debug_ok 0 10
               (node CATTLE_INSTRUCTION_LOOP_BEGIN 1 None (Some through_zero_body))
               true 0 (fresh_with_cell CATTLE_ON_EOF_STORE_ZERO through_zero 1)
             = Returned r /\
             events (snd r) = [OutputRequest 0 true; OutputRequest 1 true])
    by (vm_compute; eexists; split; reflexivity).
  destruct H as (r & H & Hev).
  destruct (proj1 (proj1 (loop_checks_between_passes input_at_end output_ok
                            debug_ok 0
                            (node CATTLE_INSTRUCTION_LOOP_BEGIN 1 None
                                  (Some through_zero_body))
                            through_zero_body eq_refl eq_refl)
                         true 0
                         (fresh_with_cell CATTLE_ON_EOF_STORE_ZERO through_zero 1)
                         r)
                  (ex_intro _ 10%nat H))
    as (s1 & self1 & Hp & Hn).
  exists r, s1, self1. split; [exact Hp|]. split; [exact Hn | exact Hev].
Defined.

End InterpFacts.

(** ** The program loader *)

Module LoaderFacts.

Import Loader.

Lemma load_failure_state (p : CattleProgram) (source : string)
  (e : CattleProgramError) (p' : CattleProgram) :
  cattle_program_load p source = (Some e, p') -> p' = empty_program.
Proof.
  unfold cattle_program_load.
  destruct (negb (utf8_valid source)); [intros [= _ <-]; reflexivity|].
  destruct (scan source None _) as [e'|[c literal]].
  - intros [= _ <-]. reflexivity.
  - discriminate.
Qed.

(** C7: loading ["["] fails with the UnbalancedBrackets error; and after
    any failed load the program holds one instruction doing nothing, with
    no [next] and no [loop], and no input: the state a load of the empty
    text produces. *)
Theorem failed_load_leaves_empty_program (p : CattleProgram) :
  fst (cattle_program_load p "[") = Some CATTLE_PROGRAM_ERROR_UNBALANCED_BRACKETS /\
  (forall source e p',
     cattle_program_load p source = (Some e, p') ->
     value (instructions p') = CATTLE_INSTRUCTION_NONE /\
     next (instructions p') = None /\
     loop (instructions p') = None /\
     cattle_program_load p "" = (None, p')).
Proof.
  split; [reflexivity|].
  intros source e p' Hload.
  rewrite (load_failure_state _ _ _ _ Hload). repeat split.
Qed.

Lemma failed_load_leaves_empty_program_witness :
  value (instructions empty_program) = CATTLE_INSTRUCTION_NONE /\
  next (instructions empty_program) = None /\
  loop (instructions empty_program) = None /\
  cattle_program_load
    {| instructions := Samples.print_countdown; input := Some "x"%string |} ""
  = (None, empty_program).
Proof.
  exact (proj2 (failed_load_leaves_empty_program
                  {| instructions := Samples.print_countdown;
                     input := Some "x"%string |})
               "+]"%string CATTLE_PROGRAM_ERROR_UNMATCHED_BRACKET empty_program
               eq_refl).
Defined.

(** The loader on the sources the tests use. *)
Example load_countdown :
  cattle_program_load empty_program "++[.-]"
  = (None, {| instructions := Samples.print_countdown; input := None |}).
Proof. reflexivity. Qed.

Example load_with_input :
  input (snd (cattle_program_load empty_program ",[+.,]!some input"))
  = Some "some input"%string.
Proof. reflexivity. Qed.

Example load_unmatched :
  cattle_program_load empty_program "]"
  = (Some CATTLE_PROGRAM_ERROR_UNMATCHED_BRACKET, empty_program).
Proof. reflexivity. Qed.

End LoaderFacts.

(** ** Well-formed tapes *)

Module WalkFacts.

Import Tape Walk.

Ltac wf_arith :=
  unfold position_ok, last_node, CHUNK_SIZE in *; simpl in *;
  TapeFacts.z_cases;
  rewrite ?length_app, ?length_alter in *; simpl in *; try lia.

Lemma position_ok_move_left (t : CattleTape) (n o : Z) :
  position_ok t n o -> position_ok (cattle_tape_move_left t) n o.
Proof.
  unfold cattle_tape_move_left, g_list_previous, prepend_chunk.
  destruct (disposed t); [auto|].
  intros H. wf_arith.
Qed.

Lemma position_ok_move_right (t : CattleTape) (n o : Z) :
  position_ok t n o -> position_ok (cattle_tape_move_right t) n o.
Proof.
  unfold cattle_tape_move_right, g_list_next, append_chunk.
  destruct (disposed t); [auto|].
  intros H. wf_arith.
Qed.

Lemma move_left_wf (t : CattleTape) :
  tape_wf t -> tape_wf (cattle_tape_move_left t).
Proof.
  intros [Hok Hl Hu Hc Hb]. constructor.
  - apply InterpFacts.move_left_keeps_ok. exact Hok.
  - destruct Hok as [Hlive _ _ _].
    unfold cattle_tape_move_left, g_list_previous, prepend_chunk.
    rewrite Hlive. wf_arith.
  - destruct Hok as [Hlive _ _ _].
    unfold cattle_tape_move_left, g_list_previous, prepend_chunk.
    rewrite Hlive. wf_arith.
  - destruct Hok as [Hlive _ _ _].
    unfold cattle_tape_move_left, g_list_previous, prepend_chunk.
    rewrite Hlive. wf_arith.
  - rewrite TapeFacts.move_left_bookmarks.
    eapply Forall_impl; [exact Hb|].
    intros b. apply position_ok_move_left.
Qed.

Lemma move_right_wf (t : CattleTape) :
  tape_wf t -> tape_wf (cattle_tape_move_right t).
Proof.
  intros [Hok Hl Hu Hc Hb]. constructor.
  - apply InterpFacts.move_right_keeps_ok. exact Hok.
  - destruct Hok as [Hlive _ _ _].
    unfold cattle_tape_move_right, g_list_next, append_chunk.
    rewrite Hlive. wf_arith.
  - destruct Hok as [Hlive _ _ _].
    unfold cattle_tape_move_right, g_list_next, append_chunk.
    rewrite Hlive. wf_arith.
  - destruct Hok as [Hlive _ _ _].
    unfold cattle_tape_move_right, g_list_next, append_chunk.
    rewrite Hlive. wf_arith.
  - rewrite TapeFacts.move_right_bookmarks.
    eapply Forall_impl; [exact Hb|].
    intros b. apply position_ok_move_right.
Qed.

Lemma position_ok_set (t : CattleTape) (v n o : Z) :
  position_ok t n o -> position_ok (cattle_tape_set_current_value t v) n o.
Proof.
  unfold cattle_tape_set_current_value.
  destruct (disposed t); [auto|].
  destruct ((head t <=? current t) && (0 <=? offset t)); [|auto].
  unfold position_ok, last_node. simpl. rewrite length_alter. auto.
Qed.

Lemma set_wf (t : CattleTape) (v : Z) :
  tape_wf t -> tape_wf (cattle_tape_set_current_value t v).
Proof.
  intros [Hok Hl Hu Hc Hb].
  assert (Hfields :
    current (cattle_tape_set_current_value t v) = current t /\
    offset (cattle_tape_set_current_value t v) = offset t /\
    lower_limit (cattle_tape_set_current_value t v) = lower_limit t /\
    upper_limit (cattle_tape_set_current_value t v) = upper_limit t /\
    bookmarks (cattle_tape_set_current_value t v) = bookmarks t).
  { unfold cattle_tape_set_current_value.
    destruct (disposed t); [repeat split|].
    destruct ((head t <=? current t) && (0 <=? offset t)); repeat split. }
  destruct Hfields as (E1 & E2 & E3 & E4 & E5).
  constructor; rewrite ?E1, ?E2, ?E3, ?E4, ?E5; try assumption.
  - apply InterpFacts.set_keeps_ok. exact Hok.
  - apply position_ok_set. exact Hc.
  - eapply Forall_impl; [exact Hb|]. intros b. apply position_ok_set.
Qed.

Lemma push_wf (t : CattleTape) :
  tape_wf t -> tape_wf (cattle_tape_push_bookmark t).
Proof.
  intros Hwf. pose proof Hwf as [Hok Hl Hu Hc Hb].
  unfold cattle_tape_push_bookmark.
  destruct (disposed t); [exact Hwf|].
  destruct Hok as [Hlive Hcur Hoff Hch].
  constructor; try assumption.
  - constructor; assumption.
  - simpl. constructor; [exact Hc | exact Hb].
Qed.

Lemma pop_wf (t : CattleTape) :
  tape_wf t -> tape_wf (snd (cattle_tape_pop_bookmark t)).
Proof.
  intros Hwf. pose proof Hwf as [Hok Hl Hu Hc Hb].
  unfold cattle_tape_pop_bookmark.
  destruct (disposed t); [exact Hwf|].
  destruct (bookmarks t) as [|b rest] eqn:Hbs; [exact Hwf|].
  simpl. inversion Hb as [|b' rest' Hb1 Hb2]; subst.
  destruct Hok as [Hlive Hcur Hoff Hch].
  constructor; try assumption.
  - constructor; try assumption; simpl; unfold position_ok in Hb1; tauto.
Qed.

Lemma new_wf : tape_wf cattle_tape_new.
Proof.
  constructor.
  - apply InterpFacts.fresh_tape_ok.
  - unfold CHUNK_SIZE. simpl. lia.
  - unfold CHUNK_SIZE. simpl. lia.
  - unfold position_ok, last_node, CHUNK_SIZE. simpl. lia.
  - constructor.
Qed.

(** X1: a new tape is well formed, and every operation of the tape keeps
    it so: the cursor and all bookmarks stay inside allocated chunks and
    within the limits of the outermost chunks. *)
Theorem tape_operations_keep_wf :
  tape_wf cattle_tape_new /\
  (forall t, tape_wf t ->
     tape_wf (cattle_tape_move_left t) /\
     tape_wf (cattle_tape_move_right t) /\
     (forall v, tape_wf (cattle_tape_set_current_value t v)) /\
     tape_wf (cattle_tape_push_bookmark t) /\
     tape_wf (snd (cattle_tape_pop_bookmark t))).
Proof.
  split; [exact new_wf|]. intros t Hwf.
  split; [apply move_left_wf; exact Hwf|].
  split; [apply move_right_wf; exact Hwf|].
  split; [intros v; apply set_wf; exact Hwf|].
  split; [apply push_wf | apply pop_wf]; exact Hwf.
Qed.

Lemma tape_operations_keep_wf_witness :
  tape_wf (cattle_tape_move_left cattle_tape_new).
Proof.
  exact (proj1 (proj2 tape_operations_keep_wf cattle_tape_new
                  (proj1 tape_operations_keep_wf))).
Defined.

(** *** Cell contents *)

Lemma node_data_prepend (t : CattleTape) (n : Z) :
  node_data (prepend_chunk t) n =
  if n =? head t - 1 then Some g_slice_alloc0 else node_data t n.
Proof.
  unfold node_data, prepend_chunk. simpl.
  destruct (Z.eqb_spec n (head t - 1)) as [->|Hne].
  - rewrite Z.leb_refl, Z.sub_diag. reflexivity.
  - destruct (Z.leb_spec (head t - 1) n), (Z.leb_spec (head t) n);
      try lia; try reflexivity.
    replace (Z.to_nat (n - (head t - 1))) with (S (Z.to_nat (n - head t)))
      by lia.
    reflexivity.
Qed.

Lemma node_data_append (t : CattleTape) (n : Z) :
  node_data (append_chunk t) n =
  if n =? last_node t + 1 then Some g_slice_alloc0 else node_data t n.
Proof.
  unfold node_data, append_chunk, last_node. simpl.
  destruct (Z.leb_spec (head t) n).
  - destruct (Z.eqb_spec n (head t + Z.of_nat (length (nodes t)) - 1 + 1))
      as [->|Hne].
    + rewrite lookup_app_r by lia.
      replace (Z.to_nat (head t + Z.of_nat (length (nodes t)) - 1 + 1 - head t)
               - length (nodes t))%nat with 0%nat by lia.
      reflexivity.
    + destruct (Nat.lt_ge_cases (Z.to_nat (n - head t)) (length (nodes t))).
      * rewrite lookup_app_l by lia. reflexivity.
      * rewrite lookup_app_r by lia.
        rewrite (proj2 (lookup_ge_None (nodes t) _)) by lia.
        destruct (Z.to_nat (n - head t) - length (nodes t))%nat eqn:E;
          [lia | reflexivity].
  - destruct (Z.eqb_spec n (head t + Z.of_nat (length (nodes t)) - 1 + 1));
      [lia | reflexivity].
Qed.

(** A move keeps the chunk of every node and at most adds one zero-filled
    chunk. *)
Lemma move_left_data (t : CattleTape) (n : Z) :
  node_data (cattle_tape_move_left t) n = node_data t n \/
  (node_data t n = None /\
   node_data (cattle_tape_move_left t) n = Some g_slice_alloc0).
Proof.
  unfold cattle_tape_move_left, g_list_previous.
  destruct (disposed t); [left; reflexivity|].
  destruct (offset t =? 0).
  - destruct (current t =? head t); simpl.
    + destruct (current t =? head t - 1); simpl;
        change (node_data (prepend_chunk t) n = node_data t n \/
                node_data t n = None /\
                node_data (prepend_chunk t) n = Some g_slice_alloc0);
        rewrite node_data_prepend;
        (destruct (Z.eqb_spec n (head t - 1)) as [->|]; [|left; reflexivity];
         right; split; [|reflexivity];
         unfold node_data; destruct (Z.leb_spec (head t) (head t - 1));
         [lia | reflexivity]).
    + destruct (current t =? head t); left; reflexivity.
  - simpl. destruct (current t =? head t); simpl; [|left; reflexivity].
    destruct (offset t - 1 <? lower_limit t); left; reflexivity.
Qed.

Lemma move_right_data (t : CattleTape) (n : Z) :
  node_data (cattle_tape_move_right t) n = node_data t n \/
  (node_data t n = None /\
   node_data (cattle_tape_move_right t) n = Some g_slice_alloc0).
Proof.
  unfold cattle_tape_move_right, g_list_next.
  destruct (disposed t); [left; reflexivity|].
  destruct (offset t =? CHUNK_SIZE - 1).
  - destruct (current t =? last_node t); simpl.
    + destruct (current t =? last_node (append_chunk t)); simpl;
        change (node_data (append_chunk t) n = node_data t n \/
                node_data t n = None /\
                node_data (append_chunk t) n = Some g_slice_alloc0);
        rewrite node_data_append;
        (destruct (Z.eqb_spec n (last_node t + 1)) as [->|]; [|left; reflexivity];
         right; split; [|reflexivity];
         unfold node_data, last_node;
         destruct (Z.leb_spec (head t) (head t + Z.of_nat (length (nodes t)) - 1 + 1));
         [|reflexivity];
         apply lookup_ge_None; lia).
    + destruct (current t =? last_node t); left; reflexivity.
  - simpl. destruct (current t =? last_node _); simpl; [|left; reflexivity].
    destruct (upper_limit t <? offset t + 1); left; reflexivity.
Qed.

Lemma alloc0_lookup (i : nat) (c : Z) : g_slice_alloc0 !! i = Some c -> c = 0.
Proof.
  unfold g_slice_alloc0. intros H.
  apply lookup_replicate in H. tauto.
Qed.

Lemma apply_move_data (m : move) (t : CattleTape) (n : Z) :
  node_data (apply_move m t) n = node_data t n \/
  (node_data t n = None /\ node_data (apply_move m t) n = Some g_slice_alloc0).
Proof. destruct m; [apply move_left_data | apply move_right_data]. Qed.

Lemma cells_after_moves (ms : list move) (t : CattleTape) (n o : Z) :
  (forall c, cell_at t n o = Some c -> cell_at (apply_moves ms t) n o = Some c) /\
  (forall c, cell_at (apply_moves ms t) n o = Some c ->
     cell_at t n o = Some c \/ (cell_at t n o = None /\ c = 0)).
Proof.
  revert t. induction ms as [|m ms IH]; intros t.
  - simpl. split; [auto|]. intros c H. left. exact H.
  - change (apply_moves (m :: ms) t) with (apply_moves ms (apply_move m t)).
    destruct (IH (apply_move m t)) as [IH1 IH2].
    assert (Hstep1 : forall c, cell_at t n o = Some c ->
                               cell_at (apply_move m t) n o = Some c).
    { intros c. unfold cell_at.
      destruct (0 <=? o); [|discriminate].
      destruct (apply_move_data m t n) as [-> | [Hn _]]; [auto|].
      rewrite Hn. discriminate. }
    assert (Hstep2 : forall c, cell_at (apply_move m t) n o = Some c ->
              cell_at t n o = Some c \/ (cell_at t n o = None /\ c = 0)).
    { intros c. unfold cell_at.
      destruct (0 <=? o); [|discriminate].
      destruct (apply_move_data m t n) as [-> | [Hn ->]]; [auto|].
      rewrite Hn. intros H. right. split; [reflexivity|].
      eapply alloc0_lookup. exact H. }
    split.
    + intros c H. apply IH1, Hstep1, H.
    + intros c H. destruct (IH2 c H) as [H1 | [H1 ->]].
      * apply Hstep2. exact H1.
      * destruct (cell_at t n o) as [c'|] eqn:Hc; [|right; auto].
        rewrite (Hstep1 c' eq_refl) in H1. discriminate.
Qed.

(** X2: single-step moves never change a cell: after any sequence of
    moves every cell that existed holds the value it held, and every
    cell that did not exist before holds zero. *)
Theorem moves_keep_cells (ms : list move) (t : CattleTape) (n o : Z) :
  (forall c, cell_at t n o = Some c -> cell_at (apply_moves ms t) n o = Some c) /\
  (forall c, cell_at (apply_moves ms t) n o = Some c ->
     cell_at t n o = Some c \/ (cell_at t n o = None /\ c = 0)).
Proof. exact (cells_after_moves ms t n o). Qed.

Lemma moves_keep_cells_witness :
  cell_at (apply_moves [MoveLeft; MoveLeft; MoveRight]
             (cattle_tape_set_current_value cattle_tape_new 7)) 0 0 = Some 7.
Proof.
  exact (proj1 (moves_keep_cells [MoveLeft; MoveLeft; MoveRight]
                  (cattle_tape_set_current_value cattle_tape_new 7) 0 0)
               7 eq_refl).
Defined.

(** *** Cursor motion *)

(** Where the cursor goes does not depend on whether a chunk had to be
    allocated. *)
Lemma move_left_cursor (t : CattleTape) :
  disposed t = false ->
  current (cattle_tape_move_left t) =
    (if offset t =? 0 then current t - 1 else current t) /\
  offset (cattle_tape_move_left t) =
    (if offset t =? 0 then CHUNK_SIZE - 1 else offset t - 1).
Proof.
  intros Hlive.
  unfold cattle_tape_move_left, g_list_previous, prepend_chunk.
  rewrite Hlive.
  destruct (offset t =? 0); simpl.
  - destruct (Z.eqb_spec (current t) (head t)); simpl.
    + destruct (Z.eqb_spec (current t) (head t - 1)); [lia|]. split; reflexivity.
    + destruct (Z.eqb_spec (current t) (head t)); [lia|]. split; reflexivity.
  - destruct (current t =? head t); simpl; [|split; reflexivity].
    destruct (offset t - 1 <? lower_limit t); split; reflexivity.
Qed.

Lemma move_right_cursor (t : CattleTape) :
  disposed t = false ->
  current (cattle_tape_move_right t) =
    (if offset t =? CHUNK_SIZE - 1 then current t + 1 else current t) /\
  offset (cattle_tape_move_right t) =
    (if offset t =? CHUNK_SIZE - 1 then 0 else offset t + 1).
Proof.
  intros Hlive.
  unfold cattle_tape_move_right, g_list_next, append_chunk.
  rewrite Hlive.
  destruct (offset t =? CHUNK_SIZE - 1); simpl.
  - destruct (Z.eqb_spec (current t) (last_node t)); simpl.
    + unfold last_node in *. simpl. rewrite length_app. simpl.
      destruct (Z.eqb_spec (current t)
                  (head t + Z.of_nat (length (nodes t) + 1) - 1)); [lia|].
      split; reflexivity.
    + destruct (Z.eqb_spec (current t) (last_node t)); [lia|]. split; reflexivity.
  - destruct (current t =? last_node _); simpl; [|split; reflexivity].
    destruct (upper_limit t <? offset t + 1); split; reflexivity.
Qed.

Lemma iter_left_disposed (n : nat) (t : CattleTape) :
  disposed (Nat.iter n cattle_tape_move_left t) = disposed t.
Proof.
  induction n as [|n IH]; [reflexivity|].
  simpl. rewrite TapeFacts.move_left_disposed. exact IH.
Qed.

Lemma iter_right_disposed (n : nat) (t : CattleTape) :
  disposed (Nat.iter n cattle_tape_move_right t) = disposed t.
Proof.
  induction n as [|n IH]; [reflexivity|].
  simpl. rewrite TapeFacts.move_right_disposed. exact IH.
Qed.

Lemma right_after_left (u t : CattleTape) :
  disposed u = false -> disposed t = false ->
  0 <= offset t < CHUNK_SIZE ->
  current u = current (cattle_tape_move_left t) ->
  offset u = offset (cattle_tape_move_left t) ->
  current (cattle_tape_move_right u) = current t /\
  offset (cattle_tape_move_right u) = offset t.
Proof.
  intros Hu Ht Ho Hc Hof.
  destruct (move_left_cursor t Ht) as [Lc Lo].
  destruct (move_right_cursor u Hu) as [Rc Ro].
  rewrite Rc, Ro, Hc, Hof, Lc, Lo. unfold CHUNK_SIZE in *.
  destruct (Z.eqb_spec (offset t) 0); TapeFacts.z_cases; lia.
Qed.

Lemma left_after_right (u t : CattleTape) :
  disposed u = false -> disposed t = false ->
  0 <= offset t < CHUNK_SIZE ->
  current u = current (cattle_tape_move_right t) ->
  offset u = offset (cattle_tape_move_right t) ->
  current (cattle_tape_move_left u) = current t /\
  offset (cattle_tape_move_left u) = offset t.
Proof.
  intros Hu Ht Ho Hc Hof.
  destruct (move_right_cursor t Ht) as [Rc Ro].
  destruct (move_left_cursor u Hu) as [Lc Lo].
  rewrite Lc, Lo, Hc, Hof, Rc, Ro. unfold CHUNK_SIZE in *.
  destruct (Z.eqb_spec (offset t) (128 - 1)); TapeFacts.z_cases; lia.
Qed.

Lemma move_left_offset_range (t : CattleTape) :
  disposed t = false -> 0 <= offset t < CHUNK_SIZE ->
  0 <= offset (cattle_tape_move_left t) < CHUNK_SIZE.
Proof.
  intros Ht Ho. destruct (move_left_cursor t Ht) as [_ ->].
  unfold CHUNK_SIZE in *. TapeFacts.z_cases; lia.
Qed.

Lemma move_right_offset_range (t : CattleTape) :
  disposed t = false -> 0 <= offset t < CHUNK_SIZE ->
  0 <= offset (cattle_tape_move_right t) < CHUNK_SIZE.
Proof.
  intros Ht Ho. destruct (move_right_cursor t Ht) as [_ ->].
  unfold CHUNK_SIZE in *. TapeFacts.z_cases; lia.
Qed.

(** X3: on a live tape whose offset is inside a chunk, [n] moves to one
    side followed by [n] moves to the other bring the cursor back to the
    chunk and offset it started from, whatever chunks were allocated on
    the way. *)
Theorem moves_there_and_back (n : nat) (t : CattleTape) :
  disposed t = false ->
  0 <= offset t < CHUNK_SIZE ->
  (current (Nat.iter n cattle_tape_move_right
              (Nat.iter n cattle_tape_move_left t)) = current t /\
   offset (Nat.iter n cattle_tape_move_right
             (Nat.iter n cattle_tape_move_left t)) = offset t) /\
  (current (Nat.iter n cattle_tape_move_left
              (Nat.iter n cattle_tape_move_right t)) = current t /\
   offset (Nat.iter n cattle_tape_move_left
             (Nat.iter n cattle_tape_move_right t)) = offset t).
Proof.
  revert t. induction n as [|n IH]; intros t Ht Ho.
  - simpl. repeat split.
  - split.
    + rewrite (Nat.iter_succ_r n _ cattle_tape_move_left t). simpl.
      destruct (IH (cattle_tape_move_left t)) as [[Hc Hof] _].
      * rewrite TapeFacts.move_left_disposed. exact Ht.
      * apply move_left_offset_range; assumption.
      * apply right_after_left; try assumption.
        rewrite iter_right_disposed, iter_left_disposed,
          TapeFacts.move_left_disposed. exact Ht.
    + rewrite (Nat.iter_succ_r n _ cattle_tape_move_right t). simpl.
      destruct (IH (cattle_tape_move_right t)) as [_ [Hc Hof]].
      * rewrite TapeFacts.move_right_disposed. exact Ht.
      * apply move_right_offset_range; assumption.
      * apply left_after_right; try assumption.
        rewrite iter_left_disposed, iter_right_disposed,
          TapeFacts.move_right_disposed. exact Ht.
Qed.

Lemma moves_there_and_back_witness :
  current (Nat.iter 200 cattle_tape_move_right
             (Nat.iter 200 cattle_tape_move_left cattle_tape_new)) = 0 /\
  offset (Nat.iter 200 cattle_tape_move_right
            (Nat.iter 200 cattle_tape_move_left cattle_tape_new)) = 0.
Proof.
  exact (proj1 (moves_there_and_back 200 cattle_tape_new eq_refl
                  (conj (Z.le_refl 0) eq_refl))).
Defined.

(** *** Writing and reading *)

Lemma get_is_cell_at (t : CattleTape) :
  disposed t = false ->
  cattle_tape_get_current_value t =
  default 0 (cell_at t (current t) (offset t)).
Proof.
  intros Hlive. unfold cattle_tape_get_current_value, cell_at.
  rewrite Hlive.
  destruct (node_data t (current t)); destruct (0 <=? offset t); reflexivity.
Qed.

Lemma cells_after_write (t : CattleTape) (v : Z) :
  tape_ok t ->
  cell_at (cattle_tape_set_current_value t v) (current t) (offset t) = Some v /\
  (forall n o, n <> current t \/ o <> offset t ->
     cell_at (cattle_tape_set_current_value t v) n o = cell_at t n o).
Proof.
  intros [Hlive Hcur Hoff Hch].
  unfold cattle_tape_set_current_value. rewrite Hlive.
  unfold last_node, CHUNK_SIZE in *.
  destruct (Z.leb_spec (head t) (current t)); [|lia].
  destruct (Z.leb_spec 0 (offset t)); [|lia]. simpl.
  destruct (nodes t !! Z.to_nat (current t - head t)) as [c|] eqn:Hc;
    [|apply lookup_ge_None in Hc; lia].
  assert (Hlen : length c = 128%nat).
  { rewrite Forall_lookup in Hch. apply (Hch _ _ Hc). }
  split.
  - unfold cell_at, node_data. simpl.
    destruct (Z.leb_spec 0 (offset t)); [|lia].
    destruct (Z.leb_spec (head t) (current t)); [|lia].
    rewrite list_lookup_alter_eq, Hc. simpl.
    apply list_lookup_insert_eq. lia.
  - intros n o Hne. unfold cell_at, node_data. simpl.
    destruct (Z.leb_spec 0 o); [|reflexivity].
    destruct (Z.leb_spec (head t) n); [|reflexivity].
    destruct (Z.eq_dec n (current t)) as [->|Hn].
    + rewrite list_lookup_alter_eq, Hc. simpl.
      apply list_lookup_insert_ne. lia.
    + rewrite list_lookup_alter_ne by lia. reflexivity.
Qed.

(** X4: on a well-formed tape a write puts its value in the current cell
    and in no other: the current cell then reads as the value written,
    and every other cell of the tape reads as before. *)
Theorem write_changes_one_cell (t : CattleTape) (v : Z) :
  tape_ok t ->
  cell_at (cattle_tape_set_current_value t v) (current t) (offset t) = Some v /\
  (forall n o, n <> current t \/ o <> offset t ->
     cell_at (cattle_tape_set_current_value t v) n o = cell_at t n o).
Proof. exact (cells_after_write t v). Qed.

Lemma write_changes_one_cell_witness :
  cell_at (cattle_tape_set_current_value cattle_tape_new 9) 0 0 = Some 9 /\
  cell_at (cattle_tape_set_current_value cattle_tape_new 9) 0 1 =
  cell_at cattle_tape_new 0 1.
Proof.
  destruct (write_changes_one_cell cattle_tape_new 9 InterpFacts.fresh_tape_ok)
    as [H1 H2].
  split; [exact H1|]. apply H2. right. discriminate.
Defined.

(** X5: a value written before a bookmark is pushed is what the current
    cell reads after any sequence of moves and the pop of that bookmark. *)
Theorem written_value_survives_excursion (t : CattleTape) (v : Z)
  (ms : list move) :
  tape_ok t ->
  cattle_tape_get_current_value
    (snd (cattle_tape_pop_bookmark
            (apply_moves ms
               (cattle_tape_push_bookmark
                  (cattle_tape_set_current_value t v))))) = v.
Proof.
  intros Hok.
  destruct (cells_after_write t v Hok) as [Hcell _].
  pose proof (InterpFacts.set_keeps_ok t v Hok) as Hok1.
  set (t1 := cattle_tape_set_current_value t v) in *.
  assert (Hpos : current t1 = current t /\ offset t1 = offset t).
  { unfold t1, cattle_tape_set_current_value.
    destruct (disposed t); [split; reflexivity|].
    destruct ((head t <=? current t) && (0 <=? offset t)); split; reflexivity. }
  destruct Hpos as [Hc1 Ho1]. rewrite <- Hc1, <- Ho1 in Hcell.
  destruct Hok1 as [Hlive1 _ _ _].
  assert (Hpush : cattle_tape_push_bookmark t1 =
                  set_bookmarks t1 ({| bm_chunk := current t1;
                                       bm_offset := offset t1 |} :: bookmarks t1)).
  { unfold cattle_tape_push_bookmark. rewrite Hlive1. reflexivity. }
  rewrite Hpush.
  set (t2 := set_bookmarks t1 _).
  assert (Hcell2 : cell_at t2 (current t1) (offset t1) = Some v) by exact Hcell.
  apply (proj1 (cells_after_moves ms t2 _ _)) in Hcell2.
  unfold cattle_tape_pop_bookmark.
  rewrite TapeFacts.apply_moves_disposed, TapeFacts.apply_moves_bookmarks.
  simpl. rewrite Hlive1. simpl.
  rewrite get_is_cell_at by (simpl; rewrite TapeFacts.apply_moves_disposed;
                             exact Hlive1).
  simpl.
  change (cell_at (set_cursor (set_bookmarks (apply_moves ms t2) (bookmarks t1))
                     (current t1) (offset t1)) (current t1) (offset t1))
    with (cell_at (apply_moves ms t2) (current t1) (offset t1)).
  rewrite Hcell2. reflexivity.
Qed.

Lemma written_value_survives_excursion_witness :
  cattle_tape_get_current_value
    (snd (cattle_tape_pop_bookmark
            (apply_moves [MoveLeft; MoveLeft; MoveRight]
               (cattle_tape_push_bookmark
                  (cattle_tape_set_current_value cattle_tape_new 42))))) = 42.
Proof.
  exact (written_value_survives_excursion cattle_tape_new 42
           [MoveLeft; MoveLeft; MoveRight] InterpFacts.fresh_tape_ok).
Defined.

(** X17: at the end of the tape a move right leaves the cursor at the
    end, the upper limit following it or a new last chunk starting at
    offset zero; at the beginning a move left leaves it at the
    beginning. *)
Theorem ends_follow_the_cursor (t : CattleTape) :
  (cattle_tape_is_at_end t = true ->
   cattle_tape_is_at_end (cattle_tape_move_right t) = true) /\
  (cattle_tape_is_at_beginning t = true ->
   cattle_tape_is_at_beginning (cattle_tape_move_left t) = true).
Proof.
  split.
  - unfold cattle_tape_is_at_end, cattle_tape_move_right, g_list_next,
      append_chunk, last_node.
    destruct (disposed t) eqn:Hlive; [discriminate|]. simpl.
    TapeFacts.z_cases; rewrite ?Hlive; simpl; rewrite ?length_app in *;
      simpl in *; intros Hend; try discriminate;
      TapeFacts.z_cases; rewrite ?length_app in *; simpl in *;
      try reflexivity; try lia.
  - unfold cattle_tape_is_at_beginning, cattle_tape_move_left, g_list_previous,
      prepend_chunk.
    destruct (disposed t) eqn:Hlive; [discriminate|]. simpl.
    TapeFacts.z_cases; rewrite ?Hlive; simpl; intros Hend; try discriminate;
      TapeFacts.z_cases; try reflexivity; try lia.
Qed.

Lemma ends_follow_the_cursor_witness :
  cattle_tape_is_at_end (cattle_tape_move_right cattle_tape_new) = true.
Proof. exact (proj1 (ends_follow_the_cursor cattle_tape_new) eq_refl). Defined.

(** *** Walking to the ends *)

Lemma set_cursor_same (t : CattleTape) :
  set_cursor t (current t) (offset t) = t.
Proof. destruct t. reflexivity. Qed.

Lemma cells_before_zero (t : CattleTape) :
  tape_wf t ->
  0 <= cells_before t /\
  (cattle_tape_is_at_beginning t = true <-> cells_before t = 0).
Proof.
  intros [[Hlive Hcur Hoff Hch] Hl Hu Hc Hb].
  unfold cattle_tape_is_at_beginning, g_list_previous, cells_before.
  rewrite Hlive. unfold position_ok, last_node, CHUNK_SIZE in *.
  destruct (Z.eqb_spec (current t) (head t)).
  - split; [lia|]. rewrite Z.eqb_eq. lia.
  - split; [lia|]. split; [discriminate | lia].
Qed.

Lemma cells_after_zero (t : CattleTape) :
  tape_wf t ->
  0 <= cells_after t /\
  (cattle_tape_is_at_end t = true <-> cells_after t = 0).
Proof.
  intros [[Hlive Hcur Hoff Hch] Hl Hu Hc Hb].
  unfold cattle_tape_is_at_end, g_list_next, cells_after.
  rewrite Hlive. unfold position_ok, last_node, CHUNK_SIZE in *.
  destruct (Z.eqb_spec (current t) (head t + Z.of_nat (length (nodes t)) - 1)).
  - split; [lia|]. rewrite Z.eqb_eq. lia.
  - split; [lia|]. split; [discriminate | lia].
Qed.

(** Away from the beginning a move left only moves the cursor. *)
Lemma rewind_step (t : CattleTape) :
  tape_wf t ->
  cattle_tape_is_at_beginning t = false ->
  exists c o,
    cattle_tape_move_left t = set_cursor t c o /\
    cells_before (set_cursor t c o) = cells_before t - 1.
Proof.
  intros [[Hlive Hcur Hoff Hch] Hl Hu Hc Hb].
  unfold cattle_tape_is_at_beginning, cattle_tape_move_left, g_list_previous,
    cells_before.
  rewrite Hlive. unfold position_ok, last_node, CHUNK_SIZE in *. simpl.
  destruct (Z.eqb_spec (current t) (head t)) as [Hh|Hh].
  - intros Hne. apply Z.eqb_neq in Hne.
    destruct (Z.eqb_spec (offset t) 0) as [H0|H0]; [lia|].
    destruct (Z.ltb_spec (offset t - 1) (lower_limit t)); [lia|].
    eexists _, _. split; [reflexivity|]. simpl. lia.
  - intros _.
    destruct (Z.eqb_spec (offset t) 0) as [H0|H0].
    + simpl. destruct (Z.eqb_spec (current t) (head t)); [lia|].
      eexists _, _. split; [reflexivity|]. simpl. lia.
    + eexists _, _. split; [reflexivity|]. simpl. lia.
Qed.

(** Away from the end a move right only moves the cursor. *)
Lemma dump_step (t : CattleTape) :
  tape_wf t ->
  cattle_tape_is_at_end t = false ->
  exists c o,
    cattle_tape_move_right t = set_cursor t c o /\
    cells_after (set_cursor t c o) = cells_after t - 1.
Proof.
  intros [[Hlive Hcur Hoff Hch] Hl Hu Hc Hb].
  unfold cattle_tape_is_at_end, cattle_tape_move_right, g_list_next,
    cells_after.
  rewrite Hlive. unfold position_ok, last_node, CHUNK_SIZE in *. simpl.
  destruct (Z.eqb_spec (current t) (head t + Z.of_nat (length (nodes t)) - 1))
    as [Hh|Hh].
  - intros Hne. apply Z.eqb_neq in Hne.
    destruct (Z.eqb_spec (offset t) (128 - 1)) as [H0|H0]; [lia|].
    destruct (Z.ltb_spec (upper_limit t) (offset t + 1)); [lia|].
    eexists _, _. split; [reflexivity|]. simpl. lia.
  - intros _.
    destruct (Z.eqb_spec (offset t) (128 - 1)) as [H0|H0].
    + simpl.
      destruct (Z.eqb_spec (current t)
                  (head t + Z.of_nat (length (nodes t)) - 1)); [lia|].
      eexists _, _. split; [reflexivity|]. simpl. lia.
    + eexists _, _. split; [reflexivity|]. simpl. lia.
Qed.

Lemma rewind_reaches (k : nat) (t : CattleTape) (fuel : nat) :
  tape_wf t ->
  cells_before t = Z.of_nat k ->
  (k <= fuel)%nat ->
  rewind fuel t = Some (set_cursor t (head t) (lower_limit t)).
Proof.
  revert t fuel. induction k as [|k IH]; intros t fuel Hwf Hk Hfuel.
  - assert (Hb : cattle_tape_is_at_beginning t = true)
      by (apply (cells_before_zero t Hwf); lia).
    destruct fuel; simpl; rewrite Hb; f_equal;
      rewrite <- (set_cursor_same t) at 1;
      unfold cattle_tape_is_at_beginning, g_list_previous in Hb;
      destruct (disposed t); try discriminate;
      destruct (Z.eqb_spec (current t) (head t)); try discriminate;
      apply Z.eqb_eq in Hb; congruence.
  - assert (Hb : cattle_tape_is_at_beginning t = false).
    { destruct (cattle_tape_is_at_beginning t) eqn:E; [|reflexivity].
      apply (cells_before_zero t Hwf) in E. lia. }
    destruct fuel as [|fuel]; [lia|]. simpl. rewrite Hb.
    destruct (rewind_step t Hwf Hb) as (c & o & Hm & Hd).
    pose proof (move_left_wf t Hwf) as Hwf'.
    rewrite Hm in *.
    rewrite (IH (set_cursor t c o) fuel Hwf') by lia.
    reflexivity.
Qed.

Lemma dump_reaches (k : nat) (t : CattleTape) (fuel : nat) (shown : list Z) :
  tape_wf t ->
  cells_after t = Z.of_nat k ->
  (k <= fuel)%nat ->
  exists more,
    length more = k /\
    dump_cells fuel t shown =
      Some (set_cursor t (last_node t) (upper_limit t), shown ++ more).
Proof.
  revert t fuel shown. induction k as [|k IH]; intros t fuel shown Hwf Hk Hfuel.
  - assert (Hb : cattle_tape_is_at_end t = true)
      by (apply (cells_after_zero t Hwf); lia).
    exists []. split; [reflexivity|]. rewrite app_nil_r.
    destruct fuel; simpl; rewrite Hb; do 2 f_equal;
      rewrite <- (set_cursor_same t) at 1;
      unfold cattle_tape_is_at_end, g_list_next in Hb;
      destruct (disposed t); try discriminate;
      destruct (Z.eqb_spec (current t) (last_node t)); try discriminate;
      apply Z.eqb_eq in Hb; congruence.
  - assert (Hb : cattle_tape_is_at_end t = false).
    { destruct (cattle_tape_is_at_end t) eqn:E; [|reflexivity].
      apply (cells_after_zero t Hwf) in E. lia. }
    destruct fuel as [|fuel]; [lia|]. simpl. rewrite Hb.
    destruct (dump_step t Hwf Hb) as (c & o & Hm & Hd).
    pose proof (move_right_wf t Hwf) as Hwf'.
    rewrite Hm in *.
    destruct (IH (set_cursor t c o) fuel
                (shown ++ [cattle_tape_get_current_value t]) Hwf')
      as (more & Hlen & Hrun); [lia | lia |].
    exists (cattle_tape_get_current_value t :: more).
    split; [simpl; lia|].
    rewrite Hrun. rewrite <- app_assoc. reflexivity.
Qed.

Lemma rewind_moves (k : nat) (t : CattleTape) :
  tape_wf t ->
  cells_before t = Z.of_nat k ->
  Nat.iter k cattle_tape_move_left t = set_cursor t (head t) (lower_limit t).
Proof.
  revert t. induction k as [|k IH]; intros t Hwf Hk.
  - assert (Hb : cattle_tape_is_at_beginning t = true)
      by (apply (cells_before_zero t Hwf); lia).
    simpl. rewrite <- (set_cursor_same t) at 1.
    unfold cattle_tape_is_at_beginning, g_list_previous in Hb.
    destruct (disposed t); try discriminate.
    destruct (Z.eqb_spec (current t) (head t)); try discriminate.
    apply Z.eqb_eq in Hb. congruence.
  - assert (Hb : cattle_tape_is_at_beginning t = false).
    { destruct (cattle_tape_is_at_beginning t) eqn:E; [|reflexivity].
      apply (cells_before_zero t Hwf) in E. lia. }
    rewrite (Nat.iter_succ_r k _ cattle_tape_move_left t).
    destruct (rewind_step t Hwf Hb) as (c & o & Hm & Hd).
    pose proof (move_left_wf t Hwf) as Hwf'.
    rewrite Hm in *.
    rewrite (IH (set_cursor t c o) Hwf') by lia.
    reflexivity.
Qed.

Lemma dump_moves (k : nat) (t : CattleTape) :
  tape_wf t ->
  cells_after t = Z.of_nat k ->
  Nat.iter k cattle_tape_move_right t = set_cursor t (last_node t) (upper_limit t).
Proof.
  revert t. induction k as [|k IH]; intros t Hwf Hk.
  - assert (Hb : cattle_tape_is_at_end t = true)
      by (apply (cells_after_zero t Hwf); lia).
    simpl. rewrite <- (set_cursor_same t) at 1.
    unfold cattle_tape_is_at_end, g_list_next in Hb.
    destruct (disposed t); try discriminate.
    destruct (Z.eqb_spec (current t) (last_node t)); try discriminate.
    apply Z.eqb_eq in Hb. congruence.
  - assert (Hb : cattle_tape_is_at_end t = false).
    { destruct (cattle_tape_is_at_end t) eqn:E; [|reflexivity].
      apply (cells_after_zero t Hwf) in E. lia. }
    rewrite (Nat.iter_succ_r k _ cattle_tape_move_right t).
    destruct (dump_step t Hwf Hb) as (c & o & Hm & Hd).
    pose proof (move_right_wf t Hwf) as Hwf'.
    rewrite Hm in *.
    rewrite (IH (set_cursor t c o) Hwf') by lia.
    reflexivity.
Qed.

Lemma rewind_short (fuel : nat) (t : CattleTape) :
  tape_wf t ->
  (fuel < Z.to_nat (cells_before t))%nat ->
  rewind fuel t = None.
Proof.
  revert t. induction fuel as [|fuel IH]; intros t Hwf Hfuel;
    (assert (Hb : cattle_tape_is_at_beginning t = false);
     [destruct (cattle_tape_is_at_beginning t) eqn:E; [|reflexivity];
      apply (cells_before_zero t Hwf) in E; lia|]);
    simpl; rewrite Hb; [reflexivity|].
  destruct (rewind_step t Hwf Hb) as (c & o & Hm & Hd).
  pose proof (move_left_wf t Hwf) as Hwf'.
  rewrite Hm in *. apply IH; [exact Hwf' | lia].
Qed.

Lemma dump_short (fuel : nat) (t : CattleTape) (shown : list Z) :
  tape_wf t ->
  (fuel < Z.to_nat (cells_after t))%nat ->
  dump_cells fuel t shown = None.
Proof.
  revert t shown. induction fuel as [|fuel IH]; intros t shown Hwf Hfuel;
    (assert (Hb : cattle_tape_is_at_end t = false);
     [destruct (cattle_tape_is_at_end t) eqn:E; [|reflexivity];
      apply (cells_after_zero t Hwf) in E; lia|]);
    simpl; rewrite Hb; [reflexivity|].
  destruct (dump_step t Hwf Hb) as (c & o & Hm & Hd).
  pose proof (move_right_wf t Hwf) as Hwf'.
  rewrite Hm in *. apply IH; [exact Hwf' | lia].
Qed.

(** X6: on a well-formed tape the rewinding loop
    [while (!is_at_beginning) move_left] ends after exactly as many
    moves as there are cells between the first valid one and the cursor:
    that many moves end it, fewer do not.  All it changes is the cursor,
    left on the first chunk at the lower limit: nothing is allocated and
    no limit moves.  The loop to the end does the same on the other
    side, showing one cell at each move. *)
Theorem walks_reach_the_ends (t : CattleTape) (fuel : nat) :
  tape_wf t ->
  ((Z.to_nat (cells_before t) <= fuel)%nat ->
   rewind fuel t = Some (set_cursor t (head t) (lower_limit t))) /\
  ((Z.to_nat (cells_after t) <= fuel)%nat ->
   exists shown,
     length shown = Z.to_nat (cells_after t) /\
     dump_cells fuel t [] =
       Some (set_cursor t (last_node t) (upper_limit t), shown)) /\
  ((fuel < Z.to_nat (cells_before t))%nat -> rewind fuel t = None) /\
  ((fuel < Z.to_nat (cells_after t))%nat ->
   forall shown, dump_cells fuel t shown = None) /\
  Nat.iter (Z.to_nat (cells_before t)) cattle_tape_move_left t =
    set_cursor t (head t) (lower_limit t) /\
  Nat.iter (Z.to_nat (cells_after t)) cattle_tape_move_right t =
    set_cursor t (last_node t) (upper_limit t).
Proof.
  intros Hwf. split; [|split; [|split; [|split; [|split]]]].
  - intros Hfuel.
    apply (rewind_reaches (Z.to_nat (cells_before t))); try assumption.
    pose proof (cells_before_zero t Hwf). lia.
  - intros Hfuel.
    destruct (dump_reaches (Z.to_nat (cells_after t)) t fuel [] Hwf)
      as (more & Hlen & Hrun); try assumption.
    + pose proof (cells_after_zero t Hwf). lia.
    + exists more. split; [exact Hlen | exact Hrun].
  - apply rewind_short, Hwf.
  - intros Hfuel shown. apply dump_short; assumption.
  - apply rewind_moves; [exact Hwf|].
    pose proof (cells_before_zero t Hwf). lia.
  - apply dump_moves; [exact Hwf|].
    pose proof (cells_after_zero t Hwf). lia.
Qed.

Lemma walks_reach_the_ends_witness :
  rewind 3 (Nat.iter 3 cattle_tape_move_right cattle_tape_new)
  = Some (set_cursor (Nat.iter 3 cattle_tape_move_right cattle_tape_new) 0 0) /\
  rewind 2 (Nat.iter 3 cattle_tape_move_right cattle_tape_new) = None.
Proof.
  assert (Hwf : tape_wf (Nat.iter 3 cattle_tape_move_right cattle_tape_new))
    by (do 3 apply move_right_wf; exact new_wf).
  split.
  - refine (proj1 (walks_reach_the_ends
                     (Nat.iter 3 cattle_tape_move_right cattle_tape_new) 3 Hwf) _).
    vm_compute. lia.
  - refine (proj1 (proj2 (proj2 (walks_reach_the_ends
                     (Nat.iter 3 cattle_tape_move_right cattle_tape_new) 2 Hwf))) _).
    vm_compute. lia.
Defined.

End WalkFacts.

(** ** Runs *)

Module RunFacts.

Import Tape Interp Session Walk.

(** *** What a run keeps

    A property of the interpreter that every elementary effect of
    [run_real] keeps is kept by the whole walk. *)

Section Kept.

Context {W : Type}.
Variable input_handler : W -> gboolean * option string * W.
Variable output_handler : gchar -> W -> gboolean * W.
Variable debug_handler : CattleTape -> W -> gboolean * CattleTape * W.
Variable uninitialised : gchar.

Local Abbreviation Interpreter := (CattleInterpreter W).
Local Abbreviation do_while' :=
  (do_while input_handler output_handler debug_handler uninitialised).

Variable P : Interpreter -> Prop.

Hypothesis keep_left : forall self,
  P self -> P (set_tape self (cattle_tape_move_left (tape self))).
Hypothesis keep_right : forall self,
  P self -> P (set_tape self (cattle_tape_move_right (tape self))).
Hypothesis keep_write : forall self v,
  P self -> P (set_tape self (cattle_tape_set_current_value (tape self) v)).
Hypothesis keep_input : forall self,
  P self -> had_input self = false -> end_of_input_reached self = false ->
  P (snd (emit_input_request input_handler self)).
Hypothesis keep_flag : forall self,
  P self -> had_input self = false \/ input (program self) = None ->
  P (set_end_of_input_reached self true).
Hypothesis keep_cursor : forall self c, P self -> P (set_input_cursor self c).
Hypothesis keep_output : forall self v,
  P self -> P (snd (emit_output_request output_handler self v)).
Hypothesis keep_debug : forall self,
  P self -> debug_is_enabled (configuration self) = true ->
  P (snd (emit_debug_request debug_handler self)).

Lemma set_tape_same (self : Interpreter) : set_tape self (tape self) = self.
Proof. destruct self. reflexivity. Qed.

Lemma kept_by_moves_left (n : nat) (self : Interpreter) :
  P self -> P (set_tape self (Nat.iter n cattle_tape_move_left (tape self))).
Proof.
  intros HP. induction n as [|n IH]; simpl.
  - rewrite set_tape_same. exact HP.
  - apply (keep_left _ IH).
Qed.

Lemma kept_by_moves_right (n : nat) (self : Interpreter) :
  P self -> P (set_tape self (Nat.iter n cattle_tape_move_right (tape self))).
Proof.
  intros HP. induction n as [|n IH]; simpl.
  - rewrite set_tape_same. exact HP.
  - apply (keep_right _ IH).
Qed.

Lemma kept_by_read_fetch (success : gboolean) (self : Interpreter) :
  P self -> P (snd (read_fetch input_handler success self)).
Proof.
  intros HP. unfold read_fetch.
  destruct (had_input self) eqn:Hh; simpl; [exact HP|].
  destruct (end_of_input_reached self) eqn:He; simpl; [exact HP|].
  destruct (cursor_exhausted (input_cursor self)); [|exact HP].
  pose proof (keep_input self HP Hh He) as HP1.
  assert (Hh1 : had_input (snd (emit_input_request input_handler self)) = false).
  { unfold emit_input_request.
    destruct (input_handler (world self)) as [[ok line] w]. exact Hh. }
  destruct (emit_input_request input_handler self) as [ok self1].
  simpl in *. destruct ok; simpl; [|exact HP1].
  apply keep_cursor.
  destruct (input_line self1); [exact HP1|].
  apply keep_flag; [exact HP1 | left; exact Hh1].
Qed.

Lemma kept_by_read_char (self : Interpreter) (temp : gchar) (self1 : Interpreter) :
  read_char self = Some (temp, self1) -> P self -> P self1.
Proof.
  unfold read_char. intros H HP.
  destruct (end_of_input_reached self); [injection H as _ <-; exact HP|].
  destruct (input_cursor self) as [p|]; [|discriminate].
  destruct (to_gchar (g_utf8_get_char p) =? 0).
  - destruct (input (program self)) eqn:Hi; injection H as _ <-;
      [exact HP | apply keep_flag; [exact HP | right; exact Hi]].
  - injection H as _ <-. apply keep_cursor. exact HP.
Qed.

Lemma kept_by_read_loop (n : nat) (success : gboolean) (temp : gchar)
  (self : Interpreter) (r : gboolean * gchar * Interpreter) :
  read_loop input_handler n success temp self = Some r -> P self -> P (snd r).
Proof.
  revert success temp self. induction n as [|n IH]; intros success temp self.
  - simpl. intros [= <-] HP. exact HP.
  - simpl. intros H HP.
    pose proof (kept_by_read_fetch success self HP) as HP1.
    destruct (read_fetch input_handler success self) as [[brk s1] self1].
    simpl in HP1. destruct brk; [injection H as <-; exact HP1|].
    destruct (read_char self1) as [[t1 self2]|] eqn:Hrc; [|discriminate].
    apply (IH _ _ _ H). apply (kept_by_read_char _ _ _ Hrc HP1).
Qed.

Lemma kept_by_read_store (temp : gchar) (self : Interpreter) :
  P self -> P (read_store temp self).
Proof.
  intros HP. unfold read_store.
  destruct (temp =? EOF_char); [|apply keep_write; exact HP].
  destruct (on_eof_action (configuration self));
    [apply keep_write | apply keep_write |]; exact HP.
Qed.

Lemma kept_by_print_loop (n : nat) (success : gboolean) (self : Interpreter) :
  P self -> P (snd (print_loop output_handler n success self)).
Proof.
  revert success self. induction n as [|n IH]; intros success self HP;
    [exact HP|].
  simpl.
  pose proof (keep_output self (cattle_tape_get_current_value (tape self)) HP)
    as HP1.
  destruct (emit_output_request output_handler self _) as [ok self1].
  simpl in HP1. destruct ok; simpl; [apply IH|]; exact HP1.
Qed.

Lemma kept_by_debug_loop (n : nat) (success : gboolean) (self : Interpreter) :
  debug_is_enabled (configuration self) = true ->
  P self -> P (snd (debug_loop debug_handler n success self)).
Proof.
  revert success self. induction n as [|n IH]; intros success self Hd HP;
    [exact HP|].
  simpl.
  pose proof (keep_debug self HP Hd) as HP1.
  assert (Hd1 : debug_is_enabled
                  (configuration (snd (emit_debug_request debug_handler self)))
                = true).
  { unfold emit_debug_request.
    destruct (debug_handler (tape self) (world self)) as [[ok t] w]. exact Hd. }
  destruct (emit_debug_request debug_handler self) as [ok self1].
  simpl in *. destruct ok; simpl; [apply IH; assumption | exact HP1].
Qed.

Lemma kept_by_while (fuel : nat)
  (R : Interpreter -> result (gboolean * Interpreter))
  (success : gboolean) (self : Interpreter) (r : gboolean * Interpreter) :
  (forall x y, R x = Returned y -> P x -> P (snd y)) ->
  while_loop fuel R success self = Returned r -> P self -> P (snd r).
Proof.
  intros HR. revert success self.
  induction fuel as [|fuel IH]; intros success self; simpl;
    destruct (cattle_tape_get_current_value (tape self) =? 0);
    try discriminate; try (intros [= <-] HP; exact HP).
  destruct (R self) as [[s1 self1]| |] eqn:HRs; try discriminate.
  intros H HP. apply (IH _ _ H). apply (HR _ _ HRs HP).
Qed.

Lemma kept_by_walk (fuel : nat) (i : CattleInstruction) (success : gboolean)
  (temp : gchar) (self : Interpreter) (r : gboolean * Interpreter) :
  do_while' fuel i success temp self = Returned r -> P self -> P (snd r).
Proof.
  revert i success temp self r.
  induction fuel as [|fuel IH]; intros i success temp self r; [discriminate|].
  assert (Hgo : forall nxt s t x,
             go_next input_handler output_handler debug_handler uninitialised
               fuel nxt s t x = Returned r -> P x -> P (snd r)).
  { intros nxt s t x. unfold go_next.
    destruct nxt as [i'|]; [|intros [= <-] HP; exact HP].
    destruct s; [apply IH | intros [= <-] HP; exact HP]. }
  rewrite InterpFacts.do_while_S.
  destruct (value i).
  - apply Hgo.
  - intros H HP. apply (Hgo _ _ _ _ H). apply kept_by_moves_left, HP.
  - intros H HP. apply (Hgo _ _ _ _ H). apply kept_by_moves_right, HP.
  - intros H HP. apply (Hgo _ _ _ _ H). apply keep_write, HP.
  - intros H HP. apply (Hgo _ _ _ _ H). apply keep_write, HP.
  - destruct (loop i) as [body|]; [|apply Hgo].
    destruct (while_loop fuel _ success self) as [[s1 self1]| |] eqn:Hw;
      try discriminate.
    intros H HP. apply (Hgo _ _ _ _ H).
    apply (kept_by_while _ _ _ _ _ (fun x y Hxy => IH _ _ _ _ _ Hxy) Hw HP).
  - intros [= <-] HP. exact HP.
  - destruct (read_loop input_handler _ success temp self)
      as [[[s1 t1] self1]|] eqn:Hr; [|discriminate].
    intros H HP. apply (Hgo _ _ _ _ H). apply kept_by_read_store.
    apply (kept_by_read_loop _ _ _ _ _ Hr HP).
  - pose proof (kept_by_print_loop (rounds (quantity i)) success self) as Hp.
    destruct (print_loop output_handler _ success self) as [s1 self1].
    intros H HP. apply (Hgo _ _ _ _ H). apply Hp, HP.
  - destruct (debug_is_enabled (configuration self)) eqn:Hd; [|apply Hgo].
    pose proof (kept_by_debug_loop (rounds (quantity i)) success self Hd) as Hp.
    destruct (debug_loop debug_handler _ success self) as [s1 self1].
    intros H HP. apply (Hgo _ _ _ _ H). apply Hp, HP.
Qed.

End Kept.

Section Runs.

Context {W : Type}.
Variable input_handler : W -> gboolean * option string * W.
Variable output_handler : gchar -> W -> gboolean * W.
Variable debug_handler : CattleTape -> W -> gboolean * CattleTape * W.
Variable uninitialised : gchar.

Local Abbreviation Interpreter := (CattleInterpreter W).
Local Abbreviation do_while' :=
  (do_while input_handler output_handler debug_handler uninitialised).
Local Abbreviation go_next' :=
  (go_next input_handler output_handler debug_handler uninitialised).
Local Abbreviation run' :=
  (cattle_interpreter_run input_handler output_handler debug_handler
     uninitialised).

Ltac emitted :=
  unfold emit_input_request, emit_output_request, emit_debug_request;
  repeat match goal with
         | |- context [input_handler ?w] => destruct (input_handler w) as [[? ?] ?]
         | |- context [output_handler ?c ?w] => destruct (output_handler c w) as [? ?]
         | |- context [debug_handler ?t ?w] => destruct (debug_handler t w) as [[? ?] ?]
         end; simpl.

(** X8: a walk of the engine leaves the configuration, the program and
    the had-input mark of the session as they were, whatever the
    handlers do and however the walk ends. *)
Theorem walk_keeps_session_settings (fuel : nat) (i : CattleInstruction)
  (success : gboolean) (temp : gchar) (self : Interpreter)
  (r : gboolean * Interpreter) :
  do_while' fuel i success temp self = Returned r ->
  configuration (snd r) = configuration self /\
  program (snd r) = program self /\
  had_input (snd r) = had_input self.
Proof.
  intros H.
  apply (kept_by_walk input_handler output_handler debug_handler uninitialised
           (fun x => configuration x = configuration self /\
                     program x = program self /\
                     had_input x = had_input self)
           ltac:(intros x Hx; exact Hx) ltac:(intros x Hx; exact Hx)
           ltac:(intros x v Hx; exact Hx)
           ltac:(intros x Hx _ _; emitted; exact Hx)
           ltac:(intros x Hx _; exact Hx)
           ltac:(intros x c Hx; exact Hx)
           ltac:(intros x v Hx; emitted; exact Hx)
           ltac:(intros x Hx _; emitted; exact Hx)
           _ _ _ _ _ _ H).
  repeat split.
Qed.

Lemma filter_snoc_false (f : event -> bool) (l : list event) (e : event) :
  f e = false -> List.filter f (l ++ [e]) = List.filter f l.
Proof.
  intros H. rewrite List.filter_app. simpl. rewrite H. apply app_nil_r.
Qed.

(** X9: if the debug handler keeps tapes well formed, so does a walk of
    the engine: the cursor and the bookmarks stay inside allocated
    chunks through moves, writes, reads and tape dumps. *)
Theorem walk_keeps_tape_wf (fuel : nat) (i : CattleInstruction)
  (success : gboolean) (temp : gchar) (self : Interpreter)
  (r : gboolean * Interpreter) :
  (forall t w, tape_wf t -> tape_wf (snd (fst (debug_handler t w)))) ->
  do_while' fuel i success temp self = Returned r ->
  tape_wf (tape self) ->
  tape_wf (tape (snd r)).
Proof.
  intros Hdebug H.
  apply (kept_by_walk input_handler output_handler debug_handler uninitialised
           (fun x => tape_wf (tape x))
           ltac:(intros x Hx; apply WalkFacts.move_left_wf; exact Hx)
           ltac:(intros x Hx; apply WalkFacts.move_right_wf; exact Hx)
           ltac:(intros x v Hx; apply WalkFacts.set_wf; exact Hx)
           ltac:(intros x Hx _ _; emitted; exact Hx)
           ltac:(intros x Hx _; exact Hx)
           ltac:(intros x c Hx; exact Hx)
           ltac:(intros x v Hx; emitted; exact Hx)
           ltac:(intros x Hx _; unfold emit_debug_request;
                 pose proof (Hdebug (tape x) (world x) Hx) as Hd;
                 destruct (debug_handler (tape x) (world x)) as [[? ?] ?];
                 exact Hd)
           _ _ _ _ _ _ H).
Qed.

Lemma literal_input_run (fuel : nat) (self : Interpreter)
  (literal : string) (r : gboolean * Interpreter) :
  input (program self) = Some literal ->
  run' fuel self = Returned r ->
  List.filter is_input_request (events (snd r)) =
    List.filter is_input_request (events self) /\
  end_of_input_reached (snd r) = end_of_input_reached self /\
  had_input (snd r) = true.
Proof.
  intros Hin H. unfold cattle_interpreter_run, run_real in H.
  simpl in H. rewrite Hin in H. simpl in H.
  pose proof
    (kept_by_walk input_handler output_handler debug_handler uninitialised
       (fun x => had_input x = true /\ input (program x) <> None /\
                 List.filter is_input_request (events x) =
                   List.filter is_input_request (events self) /\
                 end_of_input_reached x = end_of_input_reached self)
       ltac:(intros x Hx; exact Hx) ltac:(intros x Hx; exact Hx)
       ltac:(intros x v Hx; exact Hx)
       ltac:(intros x [Hx _] Hf _; congruence)
       ltac:(intros x (Hx1 & Hx2 & _) [Hf | Hf]; congruence)
       ltac:(intros x c Hx; exact Hx)
       ltac:(intros x v (Hx1 & Hx2 & Hx3 & Hx4); emitted;
             rewrite filter_snoc_false by reflexivity; auto)
       ltac:(intros x (Hx1 & Hx2 & Hx3 & Hx4) _; emitted;
             rewrite filter_snoc_false by reflexivity; auto)
       _ _ _ _ _ _ H) as HP.
  simpl in HP. rewrite Hin in HP.
  destruct HP as (H1 & _ & H3 & H4); [repeat split; discriminate|].
  auto.
Qed.

(** X10: a run of a program that carries literal input never emits an
    input request and never raises the end-of-input mark: the session's
    input requests and its mark are after the run what they were before
    it. *)
Theorem literal_input_run_asks_nothing (fuel : nat) (self : Interpreter)
  (literal : string) (r : gboolean * Interpreter) :
  input (program self) = Some literal ->
  run' fuel self = Returned r ->
  List.filter is_input_request (events (snd r)) =
    List.filter is_input_request (events self) /\
  end_of_input_reached (snd r) = end_of_input_reached self /\
  had_input (snd r) = true.
Proof. exact (literal_input_run fuel self literal r). Qed.

(** X11: with debugging disabled in the configuration a walk emits no
    debug request, whatever DumpTape nodes it meets. *)
Theorem disabled_debug_emits_nothing (fuel : nat) (i : CattleInstruction)
  (success : gboolean) (temp : gchar) (self : Interpreter)
  (r : gboolean * Interpreter) :
  debug_is_enabled (configuration self) = false ->
  do_while' fuel i success temp self = Returned r ->
  List.filter is_debug_request (events (snd r)) =
    List.filter is_debug_request (events self).
Proof.
  intros Hd H.
  pose proof
    (kept_by_walk input_handler output_handler debug_handler uninitialised
       (fun x => debug_is_enabled (configuration x) = false /\
                 List.filter is_debug_request (events x) =
                   List.filter is_debug_request (events self))
       ltac:(intros x Hx; exact Hx) ltac:(intros x Hx; exact Hx)
       ltac:(intros x v Hx; exact Hx)
       ltac:(intros x [Hx1 Hx2] _ _; emitted;
             rewrite filter_snoc_false by reflexivity; auto)
       ltac:(intros x Hx _; exact Hx)
       ltac:(intros x c Hx; exact Hx)
       ltac:(intros x v [Hx1 Hx2]; emitted;
             rewrite filter_snoc_false by reflexivity; auto)
       ltac:(intros x [Hx1 _] Hf; congruence)
       _ _ _ _ _ _ H) as HP.
  apply HP. split; [exact Hd | reflexivity].
Qed.

Lemma read_loop_at_literal_end (n : nat) (success : gboolean) (temp : gchar)
  (self : Interpreter) (p : string) :
  had_input self = true ->
  end_of_input_reached self = false ->
  input (program self) <> None ->
  input_cursor self = Some p ->
  to_gchar (g_utf8_get_char p) = 0 ->
  read_loop input_handler (S n) success temp self = Some (success, 0, self).
Proof.
  intros Hh He Hi Hc Hp. revert temp.
  assert (Hround : forall m t,
            read_loop input_handler m success 0 self = Some (success, 0, self) ->
            read_loop input_handler (S m) success t self = Some (success, 0, self)).
  { intros m t Hm. simpl. unfold read_fetch, read_char.
    rewrite Hh, He. simpl. rewrite He, Hc, Hp. simpl.
    destruct (input (program self)); [exact Hm | contradiction]. }
  induction n as [|n IH]; intros temp.
  - apply Hround. reflexivity.
  - apply Hround. apply IH.
Qed.

(** X12: once the literal input attached to the program is used up, a
    Read node writes zero in the current cell under every end-of-file
    policy, emits nothing and leaves the end-of-input mark down. *)
Theorem read_past_literal_end_stores_zero (fuel : nat) (i : CattleInstruction)
  (success : gboolean) (temp : gchar) (self : Interpreter) (n : nat)
  (p : string) :
  tape_ok (tape self) ->
  value i = CATTLE_INSTRUCTION_READ ->
  quantity i = Z.of_nat (S n) ->
  had_input self = true ->
  end_of_input_reached self = false ->
  input (program self) <> None ->
  input_cursor self = Some p ->
  to_gchar (g_utf8_get_char p) = 0 ->
  do_while' (S fuel) i success temp self =
    go_next' fuel (next i) success 0
      (set_tape self (cattle_tape_set_current_value (tape self) 0)) /\
  cattle_tape_get_current_value
    (cattle_tape_set_current_value (tape self) 0) = 0.
Proof.
  intros Hok Hv Hq Hh He Hi Hc Hp. split.
  - rewrite InterpFacts.do_while_S, Hv, Hq. unfold rounds.
    rewrite Nat2Z.id.
    rewrite (read_loop_at_literal_end n success temp self p) by assumption.
    reflexivity.
  - apply InterpFacts.set_then_get. exact Hok.
Qed.

(** X13: the had-input mark set by a run with literal input is never
    taken down.  When the session is then given a program without
    literal input that begins with a Read, the next run takes the [NULL]
    input cursor for a string and crashes. *)
Theorem stale_had_input_crashes_read (fuel1 fuel2 : nat) (self : Interpreter)
  (literal : string) (r : gboolean * Interpreter) (p2 : CattleProgram) :
  end_of_input_reached self = false ->
  input (program self) = Some literal ->
  run' fuel1 self = Returned r ->
  input p2 = None ->
  value (instructions p2) = CATTLE_INSTRUCTION_READ ->
  0 < quantity (instructions p2) ->
  run' (S fuel2) (cattle_interpreter_set_program (snd r) p2) = Crashed.
Proof.
  intros He Hin Hrun Hp2 Hv Hq.
  destruct (literal_input_run fuel1 self literal r Hin Hrun)
    as (_ & Hflag & Hhad).
  rewrite He in Hflag.
  unfold cattle_interpreter_run, run_real.
  rewrite InterpFacts.do_while_S.
  cbn [cattle_interpreter_set_program set_input_cursor set_had_input
       program input_cursor configuration tape had_input input_line
       end_of_input_reached world events].
  rewrite Hp2.
  cbn [cattle_interpreter_set_program set_input_cursor set_had_input
       program input_cursor configuration tape had_input input_line
       end_of_input_reached world events].
  rewrite Hv. unfold rounds.
  destruct (Z.to_nat (quantity (instructions p2))) as [|m] eqn:Hm; [lia|].
  simpl. unfold read_fetch, read_char. simpl.
  rewrite Hhad, Hflag. simpl. rewrite ?Hflag. reflexivity.
Qed.

(** *** Failure *)

Local Abbreviation fresh_failure success self :=
  (success = false -> ends_with_failure (events self)).

Lemma print_loop_failure (n : nat) (success : gboolean) (self : Interpreter) :
  fresh_failure success self ->
  fresh_failure (fst (print_loop output_handler n success self))
                (snd (print_loop output_handler n success self)).
Proof.
  revert success self. induction n as [|n IH]; intros success self HQ;
    [exact HQ|].
  simpl. unfold emit_output_request.
  destruct (output_handler _ (world self)) as [ok w]. destruct ok; simpl.
  - apply IH. discriminate.
  - intros _. eexists _, _. split; reflexivity.
Qed.

Lemma debug_loop_failure (n : nat) (success : gboolean) (self : Interpreter) :
  fresh_failure success self ->
  fresh_failure (fst (debug_loop debug_handler n success self))
                (snd (debug_loop debug_handler n success self)).
Proof.
  revert success self. induction n as [|n IH]; intros success self HQ;
    [exact HQ|].
  simpl. unfold emit_debug_request.
  destruct (debug_handler (tape self) (world self)) as [[ok t] w].
  destruct ok; simpl.
  - apply IH. discriminate.
  - intros _. eexists _, _. split; reflexivity.
Qed.

Lemma read_fetch_failure (success : gboolean) (self : Interpreter) :
  fresh_failure success self ->
  fresh_failure (snd (fst (read_fetch input_handler success self)))
                (snd (read_fetch input_handler success self)).
Proof.
  intros HQ. unfold read_fetch.
  destruct (negb (had_input self) && negb (end_of_input_reached self));
    [|exact HQ].
  destruct (cursor_exhausted (input_cursor self)); [|exact HQ].
  unfold emit_input_request.
  destruct (input_handler (world self)) as [[ok line] w].
  destruct ok; simpl.
  - discriminate.
  - intros _. eexists _, _. split; reflexivity.
Qed.

Lemma read_char_events (self : Interpreter) (temp : gchar) (self1 : Interpreter) :
  read_char self = Some (temp, self1) -> events self1 = events self.
Proof.
  unfold read_char.
  destruct (end_of_input_reached self); [intros [= _ <-]; reflexivity|].
  destruct (input_cursor self) as [p|]; [|discriminate].
  destruct (to_gchar (g_utf8_get_char p) =? 0).
  - destruct (input (program self)); intros [= _ <-]; reflexivity.
  - intros [= _ <-]. reflexivity.
Qed.

Lemma read_loop_failure (n : nat) (success : gboolean) (temp : gchar)
  (self : Interpreter) (success1 : gboolean) (temp1 : gchar)
  (self1 : Interpreter) :
  read_loop input_handler n success temp self = Some (success1, temp1, self1) ->
  fresh_failure success self -> fresh_failure success1 self1.
Proof.
  revert success temp self. induction n as [|n IH]; intros success temp self.
  - simpl. intros [= <- <- <-] HQ. exact HQ.
  - simpl. intros H HQ.
    pose proof (read_fetch_failure success self HQ) as HQ1.
    destruct (read_fetch input_handler success self) as [[brk s1] selfA].
    simpl in HQ1. destruct brk; [injection H as <- <- <-; exact HQ1|].
    destruct (read_char selfA) as [[t1 selfB]|] eqn:Hrc; [|discriminate].
    apply (IH _ _ _ H). rewrite (read_char_events _ _ _ Hrc). exact HQ1.
Qed.

Lemma read_store_events (temp : gchar) (self : Interpreter) :
  events (read_store temp self) = events self.
Proof.
  unfold read_store. destruct (temp =? EOF_char); [|reflexivity].
  destruct (on_eof_action (configuration self)); reflexivity.
Qed.

Lemma while_failure (fuel : nat)
  (R : Interpreter -> result (gboolean * Interpreter))
  (success : gboolean) (self : Interpreter) (r : gboolean * Interpreter) :
  (forall x y, R x = Returned y -> fresh_failure (fst y) (snd y)) ->
  while_loop fuel R success self = Returned r ->
  fresh_failure success self -> fresh_failure (fst r) (snd r).
Proof.
  intros HR. revert success self.
  induction fuel as [|fuel IH]; intros success self; simpl;
    destruct (cattle_tape_get_current_value (tape self) =? 0);
    try discriminate; try (intros [= <-] HQ; exact HQ).
  destruct (R self) as [[s1 self1]| |] eqn:HRs; try discriminate.
  intros H _. apply (IH _ _ H). apply (HR _ _ HRs).
Qed.

Lemma walk_failure (fuel : nat) (i : CattleInstruction) (success : gboolean)
  (temp : gchar) (self : Interpreter) (r : gboolean * Interpreter) :
  do_while' fuel i success temp self = Returned r ->
  fresh_failure success self -> fresh_failure (fst r) (snd r).
Proof.
  revert i success temp self r.
  induction fuel as [|fuel IH]; intros i success temp self r; [discriminate|].
  assert (Hgo : forall nxt s t x,
             go_next' fuel nxt s t x = Returned r ->
             fresh_failure s x -> fresh_failure (fst r) (snd r)).
  { intros nxt s t x. unfold go_next.
    destruct nxt as [i'|]; [|intros [= <-] HQ; exact HQ].
    destruct s; [apply IH | intros [= <-] HQ; exact HQ]. }
  rewrite InterpFacts.do_while_S.
  destruct (value i);
    try (intros H HQ; apply (Hgo _ _ _ _ H); exact HQ).
  - destruct (loop i) as [body|]; [|apply Hgo].
    destruct (while_loop fuel _ success self) as [[s1 self1]| |] eqn:Hw;
      try discriminate.
    intros H HQ. apply (Hgo _ _ _ _ H).
    assert (HR : forall x y,
               do_while' fuel body true uninitialised x = Returned y ->
               fresh_failure (fst y) (snd y)).
    { intros x y Hxy. apply (IH _ _ _ _ _ Hxy). discriminate. }
    apply (while_failure _ _ _ _ _ HR Hw HQ).
  - intros [= <-] HQ. exact HQ.
  - destruct (read_loop input_handler _ success temp self)
      as [[[s1 t1] self1]|] eqn:Hr; [|discriminate].
    intros H HQ. apply (Hgo _ _ _ _ H). rewrite read_store_events.
    apply (read_loop_failure _ _ _ _ _ _ _ Hr HQ).
  - pose proof (print_loop_failure (rounds (quantity i)) success self) as Hp.
    destruct (print_loop output_handler _ success self) as [s1 self1].
    intros H HQ. apply (Hgo _ _ _ _ H). apply Hp, HQ.
  - destruct (debug_is_enabled (configuration self)); [|apply Hgo].
    pose proof (debug_loop_failure (rounds (quantity i)) success self) as Hp.
    destruct (debug_loop debug_handler _ success self) as [s1 self1].
    intros H HQ. apply (Hgo _ _ _ _ H). apply Hp, HQ.
Qed.


(** *** The clearing loop *)

Lemma to_gchar_pred (v : Z) :
  -128 <= v <= 127 ->
  to_gchar (v - 1) = if v =? -128 then 127 else v - 1.
Proof.
  intros Hv. unfold to_gchar.
  destruct (Z.eqb_spec v (-128)) as [->|Hne]; [reflexivity|].
  rewrite Z.mod_small by lia. lia.
Qed.

(** Passes of [[-]] still to come from a cell holding [v]. *)
Local Abbreviation passes_left v :=
  (if (v <? 0)%Z then (v + 256)%Z else v%Z).

Lemma clear_passes (k : nat) (body e : CattleInstruction) (self : Interpreter) :
  value body = CATTLE_INSTRUCTION_DECREASE ->
  quantity body = 1 ->
  next body = Some e ->
  value e = CATTLE_INSTRUCTION_LOOP_END ->
  tape_ok (tape self) ->
  -128 <= cattle_tape_get_current_value (tape self) <= 127 ->
  passes_left (cattle_tape_get_current_value (tape self)) = Z.of_nat k ->
  exists t',
    tape_ok t' /\ cattle_tape_get_current_value t' = 0 /\
    current t' = current (tape self) /\ offset t' = offset (tape self) /\
    forall f F, (k <= f)%nat -> (2 <= F)%nat ->
      while_loop f (fun s => do_while' F body true uninitialised s) true self
      = Returned (true, set_tape self t').
Proof.
  intros Hvb Hqb Hnb Hve. revert self.
  induction k as [|k IH]; intros self Hok Hrange Hk.
  - assert (Hz : cattle_tape_get_current_value (tape self) = 0)
      by (destruct (Z.ltb_spec (cattle_tape_get_current_value (tape self)) 0);
          lia).
    exists (tape self).
    split; [exact Hok|]. split; [exact Hz|].
    split; [reflexivity|]. split; [reflexivity|].
    intros f F _ _. rewrite set_tape_same.
    destruct f; simpl; rewrite Hz; reflexivity.
  - set (v := cattle_tape_get_current_value (tape self)) in *.
    assert (Hnz : v <> 0) by (destruct (Z.ltb_spec v 0); lia).
    set (t1 := cattle_tape_set_current_value (tape self) (to_gchar (v - 1))).
    assert (Hok1 : tape_ok t1) by (apply InterpFacts.set_keeps_ok; exact Hok).
    assert (Hget1 : cattle_tape_get_current_value t1 = to_gchar (v - 1))
      by (apply InterpFacts.set_then_get; exact Hok).
    assert (Hpos1 : current t1 = current (tape self) /\
                    offset t1 = offset (tape self)).
    { unfold t1, cattle_tape_set_current_value.
      destruct (disposed (tape self)); [split; reflexivity|].
      destruct ((head (tape self) <=? current (tape self))
                && (0 <=? offset (tape self))); split; reflexivity. }
    destruct (IH (set_tape self t1)) as (t' & Hok' & Hget' & Hc' & Ho' & Hrun).
    + exact Hok1.
    + simpl. rewrite Hget1. apply to_gchar_range.
    + simpl. rewrite Hget1, to_gchar_pred by exact Hrange.
      destruct (Z.eqb_spec v (-128)); destruct (Z.ltb_spec v 0);
        TapeFacts.z_cases; lia.
    + exists t'. simpl in Hc', Ho'.
      split; [exact Hok'|]. split; [exact Hget'|].
      split; [destruct Hpos1; congruence|].
      split; [destruct Hpos1; congruence|].
      intros f F Hf HF.
      destruct f as [|f]; [lia|].
      destruct F as [|[|F]]; try lia.
      rewrite InterpFacts.while_loop_S.
      apply Z.eqb_neq in Hnz. fold v. rewrite Hnz.
      rewrite InterpFacts.do_while_S, Hvb, Hqb, Hnb.
      rewrite to_gchar_to_gint. fold v. fold t1.
      unfold go_next. rewrite InterpFacts.do_while_S, Hve.
      apply (Hrun f (S (S F))); lia.
Qed.

(** X15: the loop [[-]] clears the current cell whatever it holds: from
    any value in -128..127, negative ones wrapping round through -128 to
    127, the loop ends with the cell at zero and the cursor where it
    was, the walk going on at the node after the loop with success. *)
Theorem clearing_loop_zeroes_cell (i body e : CattleInstruction)
  (temp : gchar) (self : Interpreter) :
  value i = CATTLE_INSTRUCTION_LOOP_BEGIN ->
  loop i = Some body ->
  value body = CATTLE_INSTRUCTION_DECREASE ->
  quantity body = 1 ->
  next body = Some e ->
  value e = CATTLE_INSTRUCTION_LOOP_END ->
  tape_ok (tape self) ->
  -128 <= cattle_tape_get_current_value (tape self) <= 127 ->
  exists t',
    tape_ok t' /\ cattle_tape_get_current_value t' = 0 /\
    current t' = current (tape self) /\ offset t' = offset (tape self) /\
    forall fuel, (256 <= fuel)%nat ->
      do_while' (S fuel) i true temp self
      = go_next' fuel (next i) true temp (set_tape self t').
Proof.
  intros Hv Hl Hvb Hqb Hnb Hve Hok Hrange.
  destruct (clear_passes
              (Z.to_nat (passes_left (cattle_tape_get_current_value (tape self))))
              body e self Hvb Hqb Hnb Hve Hok Hrange)
    as (t' & Hok' & Hget' & Hc' & Ho' & Hrun).
  { destruct (Z.ltb_spec (cattle_tape_get_current_value (tape self)) 0); lia. }
  exists t'.
  split; [exact Hok'|]. split; [exact Hget'|].
  split; [exact Hc'|]. split; [exact Ho'|].
  intros fuel Hfuel.
  rewrite InterpFacts.do_while_S, Hv, Hl.
  rewrite (Hrun fuel fuel); [reflexivity | | lia].
  destruct (Z.ltb_spec (cattle_tape_get_current_value (tape self)) 0); lia.
Qed.

(** *** A handler that keeps failing *)

(** X16: when the output handler fails at every call, a loop whose body
    begins with a Print never returns once entered with a non-zero cell:
    each pass ends at the failed request with the cell as it was, the
    loop condition holds again, and no amount of fuel reaches a return. *)
Theorem failing_output_hangs_print_loop (i body : CattleInstruction)
  (temp : gchar) (self : Interpreter) (n : nat) :
  value i = CATTLE_INSTRUCTION_LOOP_BEGIN ->
  loop i = Some body ->
  value body = CATTLE_INSTRUCTION_PRINT ->
  quantity body = Z.of_nat (S n) ->
  (forall c w, fst (output_handler c w) = false) ->
  cattle_tape_get_current_value (tape self) <> 0 ->
  forall fuel, do_while' fuel i true temp self = OutOfFuel.
Proof.
  intros Hv Hl Hvb Hqb Hfail Hnz fuel.
  assert (Hpass : forall F x,
            do_while' F body true uninitialised x = OutOfFuel \/
            exists x1, do_while' F body true uninitialised x = Returned (false, x1)
                       /\ tape x1 = tape x).
  { intros [|F] x; [left; reflexivity|]. right.
    rewrite InterpFacts.do_while_S, Hvb, Hqb. unfold rounds.
    rewrite Nat2Z.id. simpl. unfold emit_output_request.
    pose proof (Hfail (cattle_tape_get_current_value (tape x)) (world x)) as Hf.
    destruct (output_handler _ (world x)) as [ok w]. simpl in Hf. subst ok.
    simpl. eexists.
    split; [unfold go_next; destruct (next body); reflexivity | reflexivity]. }
  assert (Hwhile : forall F f s x,
            cattle_tape_get_current_value (tape x) <> 0 ->
            while_loop f (fun y => do_while' F body true uninitialised y) s x
            = OutOfFuel).
  { intros F f. induction f as [|f IH]; intros s x Hx;
      apply Z.eqb_neq in Hx.
    - simpl. rewrite Hx. reflexivity.
    - rewrite InterpFacts.while_loop_S, Hx.
      destruct (Hpass F x) as [-> | (x1 & -> & Ht)]; [reflexivity|].
      apply IH. rewrite Ht. apply Z.eqb_neq. exact Hx. }
  destruct fuel as [|fuel]; [reflexivity|].
  rewrite InterpFacts.do_while_S, Hv, Hl, Hwhile by exact Hnz.
  reflexivity.
Qed.

End Runs.

Import Samples.

Lemma walk_keeps_session_settings_witness :
  exists r,
    do_while input_at_end output_fails_once debug_ok 0 10 print_countdown
      true 0 (fresh CATTLE_ON_EOF_STORE_ZERO print_countdown) = Returned r /\
    had_input (snd r) = false.
Proof.
  assert (H : exists r,
             do_while input_at_end output_fails_once debug_ok 0 10
               print_countdown true 0
               (fresh CATTLE_ON_EOF_STORE_ZERO print_countdown) = Returned r)
    by (vm_compute; eexists; reflexivity).
  destruct H as [r H]. exists r. split; [exact H|].
  exact (proj2 (proj2 (walk_keeps_session_settings _ _ _ _ _ _ _ _ _ _ H))).
Defined.

Lemma walk_keeps_tape_wf_witness :
  exists r,
    do_while input_at_end output_ok debug_ok 0 10 through_zero
      true 0 (fresh CATTLE_ON_EOF_STORE_ZERO through_zero) = Returned r /\
    tape_wf (tape (snd r)).
Proof.
  assert (H : exists r,
             do_while input_at_end output_ok debug_ok 0 10 through_zero
               true 0 (fresh CATTLE_ON_EOF_STORE_ZERO through_zero) = Returned r)
    by (vm_compute; eexists; reflexivity).
  destruct H as [r H]. exists r. split; [exact H|].
  exact (walk_keeps_tape_wf input_at_end output_ok debug_ok 0 _ _ _ _ _ _
           (fun t w Hwf => Hwf) H WalkFacts.new_wf).
Defined.

Lemma literal_input_run_asks_nothing_witness :
  exists r,
    cattle_interpreter_run input_at_end output_ok debug_ok 0 5
      (cattle_interpreter_new
         {| on_eof_action := CATTLE_ON_EOF_STORE_ZERO; debug_is_enabled := false |}
         {| instructions := read_twice; input := Some "a"%string |} 0%nat)
    = Returned r /\
    List.filter is_input_request (events (snd r)) = [].
Proof.
  assert (H : exists r,
             cattle_interpreter_run input_at_end output_ok debug_ok 0 5
               (cattle_interpreter_new
                  {| on_eof_action := CATTLE_ON_EOF_STORE_ZERO;
                     debug_is_enabled := false |}
                  {| instructions := read_twice; input := Some "a"%string |}
                  0%nat) = Returned r)
    by (vm_compute; eexists; reflexivity).
  destruct H as [r H]. exists r. split; [exact H|].
  refine (proj1 (literal_input_run_asks_nothing _ _ _ _ _ _ "a"%string r
                   _ H)).
  reflexivity.
Defined.

Lemma disabled_debug_emits_nothing_witness :
  exists r,
    do_while input_at_end output_ok debug_ok 0 5
      (node CATTLE_INSTRUCTION_DUMP_TAPE 2 None None) true 0
      (fresh CATTLE_ON_EOF_STORE_ZERO
         (node CATTLE_INSTRUCTION_DUMP_TAPE 2 None None)) = Returned r /\
    List.filter is_debug_request (events (snd r)) = [].
Proof.
  assert (H : exists r,
             do_while input_at_end output_ok debug_ok 0 5
               (node CATTLE_INSTRUCTION_DUMP_TAPE 2 None None) true 0
               (fresh CATTLE_ON_EOF_STORE_ZERO
                  (node CATTLE_INSTRUCTION_DUMP_TAPE 2 None None)) = Returned r)
    by (vm_compute; eexists; reflexivity).
  destruct H as [r H]. exists r. split; [exact H|].
  refine (disabled_debug_emits_nothing _ _ _ _ _ _ _ _ _ r _ H).
  reflexivity.
Defined.

Lemma read_past_literal_end_stores_zero_witness :
  cattle_tape_get_current_value
    (cattle_tape_set_current_value
       (tape (mkInterpreter
                {| on_eof_action := CATTLE_ON_EOF_STORE_EOF;
                   debug_is_enabled := false |}
                {| instructions := read_once; input := Some ""%string |}
                cattle_tape_new true None (Some ""%string) false 0%nat [])) 0)
  = 0.
Proof.
  exact (proj2 (read_past_literal_end_stores_zero
                  input_at_end output_ok debug_ok 0 0 read_once true 0
                  (mkInterpreter
                     {| on_eof_action := CATTLE_ON_EOF_STORE_EOF;
                        debug_is_enabled := false |}
                     {| instructions := read_once; input := Some ""%string |}
                     cattle_tape_new true None (Some ""%string) false 0%nat [])
                  0 ""%string InterpFacts.fresh_tape_ok eq_refl eq_refl eq_refl
                  eq_refl ltac:(discriminate) eq_refl eq_refl)).
Defined.

Lemma stale_had_input_crashes_read_witness :
  exists r,
    cattle_interpreter_run input_at_end output_ok debug_ok 0 5
      (cattle_interpreter_new
         {| on_eof_action := CATTLE_ON_EOF_STORE_ZERO; debug_is_enabled := false |}
         {| instructions := read_once; input := Some "a"%string |} 0%nat)
    = Returned r /\
    cattle_interpreter_run input_at_end output_ok debug_ok 0 5
      (cattle_interpreter_set_program (snd r)
         {| instructions := read_once; input := None |}) = Crashed.
Proof.
  assert (H : exists r,
             cattle_interpreter_run input_at_end output_ok debug_ok 0 5
               (cattle_interpreter_new
                  {| on_eof_action := CATTLE_ON_EOF_STORE_ZERO;
                     debug_is_enabled := false |}
                  {| instructions := read_once; input := Some "a"%string |}
                  0%nat) = Returned r)
    by (vm_compute; eexists; reflexivity).
  destruct H as [r H]. exists r. split; [exact H|].
  refine (stale_had_input_crashes_read _ _ _ _ 5 4 _ "a"%string r
            {| instructions := read_once; input := None |}
            _ _ H _ _ _); reflexivity.
Defined.


Lemma failing_output_hangs_print_loop_witness :
  do_while input_at_end (fun _ w => (false, S w)) debug_ok 0 50
    (node CATTLE_INSTRUCTION_LOOP_BEGIN 1 None (Some print_decrease_body))
    true 0
    (fresh_with_cell CATTLE_ON_EOF_STORE_ZERO print_countdown 2)
  = OutOfFuel.
Proof.
  refine (failing_output_hangs_print_loop input_at_end
            (fun _ w => (false, S w)) debug_ok 0
            (node CATTLE_INSTRUCTION_LOOP_BEGIN 1 None (Some print_decrease_body))
            print_decrease_body 0
            (fresh_with_cell CATTLE_ON_EOF_STORE_ZERO print_countdown 2) 0
            eq_refl eq_refl eq_refl eq_refl (fun c w => eq_refl) _ 50%nat).
  vm_compute. discriminate.
Defined.

Lemma clearing_loop_zeroes_cell_witness :
  exists t',
    cattle_tape_get_current_value t' = 0 /\
    do_while input_at_end output_ok debug_ok 0 257 clear_cell true 0
      (fresh_with_cell CATTLE_ON_EOF_STORE_ZERO clear_cell (-3))
    = go_next input_at_end output_ok debug_ok 0 256 None true 0
        (set_tape (fresh_with_cell CATTLE_ON_EOF_STORE_ZERO clear_cell (-3)) t').
Proof.
  destruct (clearing_loop_zeroes_cell input_at_end output_ok debug_ok 0
              clear_cell _ _ 0
              (fresh_with_cell CATTLE_ON_EOF_STORE_ZERO clear_cell (-3))
              eq_refl eq_refl eq_refl eq_refl eq_refl eq_refl
              (InterpFacts.fresh_with_cell_ok _ _ _)
              ltac:(vm_compute; split; discriminate))
    as (t' & _ & Hget & _ & _ & Hrun).
  exists t'. split; [exact Hget|]. apply Hrun. lia.
Defined.

End RunFacts.
